(** * utils-nodejs: a shallow embedding of [src/index.js] and its properties

    The development follows the compiled module [src/index.js] (and its
    TypeScript original): JavaScript numbers, strings and objects are
    modelled first, then the helpers of class [Utils], then the theorems. *)

From Stdlib Require Import ZArith List String Ascii Bool Lia DecimalString.
From Stdlib Require DecimalZ.
Import ListNotations.
Open Scope string_scope.
Open Scope list_scope.
Open Scope Z_scope.

(** ** Numbers

    A JavaScript number is an IEEE-754 binary64 value.  Every number the
    modelled helpers build or inspect is an integer (status codes, error
    codes, parsed integers, tick counts), NaN or an infinity; [Fin z] is
    the double whose value is the integer [z].  The one quotient that is
    not an integer, in [getDateFromUUID], is kept as a [dyadic] until
    [Math_floor] turns it into an integer again.  Negative zero is not
    distinguished from zero. *)

Inductive number : Type :=
| Fin (z : Z)
| NaN
| PosInf
| NegInf.

(** Nearest integer to [n / d] for [d > 0], ties to the even neighbour. *)
Definition round_half_even (n d : Z) : Z :=
  let q := n / d in
  let r := n mod d in
  if 2 * r <? d then q
  else if d <? 2 * r then q + 1
  else if Z.even q then q else q + 1.

(** The double nearest to the integer [z]: exact below 2^53, rounded to
    53 significant bits above, infinite from 2^1024 on. *)
Definition to_double (z : Z) : number :=
  let a := Z.abs z in
  if a <? 2 ^ 53 then Fin z
  else
    let e := Z.log2 a - 52 in
    let m := round_half_even a (2 ^ e) in
    if 2 ^ 1024 <=? m * 2 ^ e then (if z <? 0 then NegInf else PosInf)
    else Fin (Z.sgn z * (m * 2 ^ e)).

(** A finite double that need not be an integer: [mant * 2 ^ expo]. *)
Record dyadic : Type := { mant : Z; expo : Z }.

(** [binade n d] is the integer part of the binary logarithm of [n / d],
    for positive [n] and [d]. *)
Definition binade (n d : Z) : Z :=
  let k := Z.log2 n - Z.log2 d in
  if (if 0 <=? k then d * 2 ^ k <=? n else d <=? n * 2 ^ (- k))
  then k else k - 1.

(** The double nearest to [n / d] for positive [n] and [d]: 53 bits of
    mantissa, the exponent never below that of the subnormals. *)
Definition round_pos (n d : Z) : dyadic :=
  let e := Z.max (binade n d - 52) (- 1074) in
  {| mant := if 0 <=? e then round_half_even n (d * 2 ^ e)
             else round_half_even (n * 2 ^ (- e)) d;
     expo := e |}.

(** The double nearest to [a / b], for integers [a] and [b <> 0]. *)
Definition round_div (a b : Z) : dyadic :=
  if a =? 0 then {| mant := 0; expo := 0 |}
  else
    let r := round_pos (Z.abs a) (Z.abs b) in
    {| mant := Z.sgn a * Z.sgn b * mant r; expo := expo r |}.

(** The result of a division, before [Math.floor]. *)
Inductive quotient : Type :=
| QFin (d : dyadic)
| QNaN
| QPosInf
| QNegInf.

(** [x - y] on numbers. *)
Definition num_sub (x y : number) : number :=
  match x, y with
  | NaN, _ | _, NaN => NaN
  | Fin a, Fin b => to_double (a - b)
  | Fin _, PosInf => NegInf
  | Fin _, NegInf => PosInf
  | PosInf, PosInf | NegInf, NegInf => NaN
  | PosInf, _ => PosInf
  | NegInf, _ => NegInf
  end.

(** [x / y] on numbers. *)
Definition num_div (x y : number) : quotient :=
  match x, y with
  | NaN, _ | _, NaN => QNaN
  | Fin a, Fin b =>
      if b =? 0 then
        (if a =? 0 then QNaN else if 0 <? a then QPosInf else QNegInf)
      else QFin (round_div a b)
  | Fin _, _ => QFin {| mant := 0; expo := 0 |}
  | PosInf, Fin b => if b <? 0 then QNegInf else QPosInf
  | NegInf, Fin b => if b <? 0 then QPosInf else QNegInf
  | _, _ => QNaN
  end.

(** [Math.floor]. *)
Definition Math_floor (q : quotient) : number :=
  match q with
  | QFin d =>
      if 0 <=? expo d then Fin (mant d * 2 ^ expo d)
      else Fin (mant d / 2 ^ (- expo d))
  | QNaN => NaN
  | QPosInf => PosInf
  | QNegInf => NegInf
  end.

(** ** Strings

    A string is a sequence of code units; the model has the code units
    below 256. *)

Definition char_code (c : ascii) : Z := Z.of_N (N_of_ascii c).

(** White space as [parseInt] and the regular expression class [\s] read
    it: tab, line feed, vertical tab, form feed, carriage return, space
    and the no-break space. *)
Definition is_whitespace (c : ascii) : bool :=
  let n := char_code c in
  ((9 <=? n) && (n <=? 13)) || (n =? 32) || (n =? 160).

Fixpoint trimStart (s : string) : string :=
  match s with
  | EmptyString => EmptyString
  | String c rest => if is_whitespace c then trimStart rest else s
  end.

(** The value of a digit in radices up to 36. *)
Definition digit_value (c : ascii) : option Z :=
  let n := char_code c in
  if (48 <=? n) && (n <=? 57) then Some (n - 48)
  else if (97 <=? n) && (n <=? 122) then Some (n - 87)
  else if (65 <=? n) && (n <=? 90) then Some (n - 55)
  else None.

(** The integer written by the longest prefix of radix-[R] digits of
    [s], or [None] when [s] starts with no such digit and no digit has
    been read yet. *)
Fixpoint parse_digits (R : Z) (acc : option Z) (s : string) : option Z :=
  match s with
  | EmptyString => acc
  | String c rest =>
      match digit_value c with
      | Some d =>
          if d <? R then
            parse_digits R (Some (match acc with Some a => a * R + d | None => d end)) rest
          else acc
      | None => acc
      end
  end.

Definition drop_chars (n : nat) (s : string) : string :=
  substring n (String.length s - n) s.

(** The global [parseInt(string, radix)] on a string; [radix = 0] stands
    for an absent radix.  For radix 10 the language lets an engine
    approximate digits after the twentieth; the model parses exactly, as
    engines do. *)
Definition parseInt (inputString : string) (radix : Z) : number :=
  let S := trimStart inputString in
  let sign := match S with String "-"%char _ => -1 | _ => 1 end in
  let S := match S with
           | String "-"%char r | String "+"%char r => r
           | _ => S
           end in
  if negb (radix =? 0) && ((radix <? 2) || (36 <? radix)) then NaN
  else
    let stripPrefix := (radix =? 0) || (radix =? 16) in
    let R := if radix =? 0 then 10 else radix in
    let hex := stripPrefix && (prefix "0x" S || prefix "0X" S) in
    let R := if hex then 16 else R in
    let S := if hex then drop_chars 2 S else S in
    match parse_digits R None S with
    | None => NaN
    | Some mathInt => to_double (sign * mathInt)
    end.

(** [s.split(sep)] for a string separator. *)
Fixpoint split_from (sep : string) (skip : nat) (cur s : string) : list string :=
  match s with
  | EmptyString => [cur]
  | String c rest =>
      match skip with
      | S k => split_from sep k cur rest
      | O =>
          if prefix sep s
          then cur :: split_from sep (String.length sep - 1) EmptyString rest
          else split_from sep 0 (cur ++ String c EmptyString)%string rest
      end
  end.

Definition split (s sep : string) : list string :=
  match sep with
  | EmptyString => map (fun c => String c EmptyString) (list_ascii_of_string s)
  | _ => split_from sep 0 EmptyString s
  end.

(** [s.substring(1)]. *)
Definition substring1 (s : string) : string :=
  match s with
  | EmptyString => EmptyString
  | String _ rest => rest
  end.

(** ** Values

    The fragment of JavaScript values the helpers are exercised on:
    primitives, arrays, plain objects and error instances.  An object
    carries its class (which fixes its prototype), its own properties
    that are not enumerable ([hidden], such as the [message] of an error
    instance) and its own enumerable properties, in property order and
    with distinct keys.  An array carries its elements and the named
    properties assigned to it besides.  Functions are not values of the
    model: inherited methods are accounted for where they are called
    ([toJSON], [toString]), and no modelled helper reads one as data. *)

Inductive objclass : Type :=
| ClsObject
| ClsError
| ClsTypeError
| ClsSyntaxError
| ClsAPILogicError.

#[local] Unset Elimination Schemes.
Inductive value : Type :=
| VUndefined
| VNull
| VBool (b : bool)
| VNum (n : number)
| VStr (s : string)
| VArr (elems : list value) (props : list (string * value))
| VObj (cls : objclass) (hidden props : list (string * value)).
#[local] Set Elimination Schemes.

Definition properties : Type := list (string * value).

(** An object literal and an array literal. *)
Definition obj (props : properties) : value := VObj ClsObject [] props.
Definition arr (elems : list value) : value := VArr elems [].

(** The outcome of evaluating code that may throw. *)
Inductive completion (A : Type) : Type :=
| Normal (a : A)
| Throw (e : value).
Arguments Normal {A} a.
Arguments Throw {A} e.

Definition TypeError (msg : string) : value :=
  VObj ClsTypeError [("message", VStr msg)] [].
Definition SyntaxError (msg : string) : value :=
  VObj ClsSyntaxError [("message", VStr msg)] [].

Fixpoint assoc (k : string) (l : properties) : option value :=
  match l with
  | [] => None
  | (k', v) :: l' => if String.eqb k k' then Some v else assoc k l'
  end.

Definition has_key (k : string) (l : properties) : bool :=
  match assoc k l with Some _ => true | None => false end.

Fixpoint assoc_replace (k : string) (v : value) (l : properties) : properties :=
  match l with
  | [] => []
  | (k', v') :: l' =>
      if String.eqb k k' then (k', v) :: l' else (k', v') :: assoc_replace k v l'
  end.

(** The data properties an object inherits: [Error.prototype] and its
    heirs hold [message] and [name]. *)
Definition proto_get (cls : objclass) (k : string) : value :=
  match cls with
  | ClsObject => VUndefined
  | ClsError | ClsAPILogicError =>
      if String.eqb k "message" then VStr ""
      else if String.eqb k "name" then VStr "Error" else VUndefined
  | ClsTypeError =>
      if String.eqb k "message" then VStr ""
      else if String.eqb k "name" then VStr "TypeError" else VUndefined
  | ClsSyntaxError =>
      if String.eqb k "message" then VStr ""
      else if String.eqb k "name" then VStr "SyntaxError" else VUndefined
  end.

(** Decimal notation of an integer. *)
Definition decimal (z : Z) : string :=
  DecimalString.NilZero.string_of_int (Z.to_int z).

Definition zeros (n : nat) : string := string_of_list_ascii (repeat "0"%char n).

Definition is_double (z x : Z) : bool :=
  match to_double z with
  | Fin y => y =? x
  | _ => false
  end.

(** The [k]-digit integer [s] for which [s * 10^(n-k)] reads back as the
    double [x], if there is one: the one nearest to [x] when two do, and
    the even one when both are as near. *)
Definition digits_candidate (x : Z) (n k : nat) : option Z :=
  let p := 10 ^ Z.of_nat (n - k) in
  let lo := x / p in
  let hi := lo + 1 in
  let fits s := (10 ^ Z.of_nat (k - 1) <=? s) && (s <? 10 ^ Z.of_nat k)
                && is_double (s * p) x in
  match fits lo, fits hi with
  | true, true =>
      if x - lo * p <? hi * p - x then Some lo
      else if hi * p - x <? x - lo * p then Some hi
      else if Z.even lo then Some lo else Some hi
  | true, false => Some lo
  | false, true => Some hi
  | false, false => None
  end.

(** The fewest digits that read back as [x], tried from [k] digits on. *)
Fixpoint shortest_digits (x : Z) (n k fuel : nat) : Z * nat :=
  match fuel with
  | O => (x, n)
  | S fuel' =>
      match digits_candidate x n k with
      | Some s => (s, k)
      | None => shortest_digits x n (S k) fuel'
      end
  end.

(** [Number::toString] for a positive integer [x] from 2^53 on: with
    [s] the fewest digits, [k] of them, such that [s * 10^(n-k)] reads
    back as [x], the digits of [s] followed by [n-k] zeros when
    [n <= 21], and the exponent form [d.ddde+(n-1)] otherwise. *)
Definition large_to_string (x : Z) : string :=
  let n0 := String.length (decimal x) in
  let '(s, k, n) :=
    if is_double (10 ^ Z.of_nat n0) x then (1, 1%nat, S n0)
    else let '(s, k) := shortest_digits x n0 1 n0 in (s, k, n0) in
  if Nat.leb n 21 then (decimal s ++ zeros (n - k))%string
  else
    match decimal s with
    | String c rest =>
        (String c (match rest with EmptyString => "" | _ => String "."%char rest end)
         ++ "e+" ++ decimal (Z.of_nat (n - 1)))%string
    | EmptyString => ""
    end.

(** [Number::toString] in radix 10.  Below 2^53 every integer is a
    double of its own, so the fewest digits that read back are its own
    digits without the trailing zeros, and the result is its decimal
    notation. *)
Definition number_to_string (n : number) : string :=
  match n with
  | Fin z =>
      if Z.abs z <? 2 ^ 53 then decimal z
      else if z <? 0 then String "-"%char (large_to_string (- z))
      else large_to_string z
  | NaN => "NaN"
  | PosInf => "Infinity"
  | NegInf => "-Infinity"
  end.

(** The array index a property key denotes, if it is one. *)
Definition index_of_key (k : string) : option nat :=
  match parse_digits 10 None k with
  | Some n => if String.eqb (decimal n) k then Some (Z.to_nat n) else None
  | None => None
  end.

(** [v[k]] for a value that is neither [undefined] nor [null]. *)
Definition get_prop (v : value) (k : string) : value :=
  match v with
  | VObj cls hidden props =>
      match assoc k props with
      | Some x => x
      | None => match assoc k hidden with
                | Some x => x
                | None => proto_get cls k
                end
      end
  | VArr elems props =>
      if String.eqb k "length" then VNum (Fin (Z.of_nat (List.length elems)))
      else match index_of_key k with
           | Some i => nth i elems VUndefined
           | None => match assoc k props with Some x => x | None => VUndefined end
           end
  | VStr s =>
      if String.eqb k "length" then VNum (Fin (Z.of_nat (String.length s)))
      else match index_of_key k with
           | Some i => match String.get i s with
                       | Some c => VStr (String c EmptyString)
                       | None => VUndefined
                       end
           | None => VUndefined
           end
  | _ => VUndefined
  end.

(** The property read [v[k]] (or [v.k]). *)
Definition Get (v : value) (k : string) : completion value :=
  match v with
  | VUndefined | VNull => Throw (TypeError "Cannot read properties of undefined or null")
  | _ => Normal (get_prop v k)
  end.

Fixpoint replace_nth (i : nat) (x : value) (l : list value) : list value :=
  match i, l with
  | O, _ :: l' => x :: l'
  | O, [] => [x]
  | S i', y :: l' => y :: replace_nth i' x l'
  | S i', [] => VUndefined :: replace_nth i' x []
  end.

(** The assignment [v[k] = x] in strict mode (the module starts with
    [use strict]), returning the updated value: an own property is
    overwritten in place, a new one is added last and enumerable, and a
    primitive target is a [TypeError].  The helpers assign the keys
    [message], [code] and [err]; the [length] of an array is never
    assigned and has no special case here. *)
Definition SetProp (v : value) (k : string) (x : value) : completion value :=
  match v with
  | VObj cls hidden props =>
      if has_key k props then Normal (VObj cls hidden (assoc_replace k x props))
      else if has_key k hidden then Normal (VObj cls (assoc_replace k x hidden) props)
      else Normal (VObj cls hidden (props ++ [(k, x)]))
  | VArr elems props =>
      match index_of_key k with
      | Some i => Normal (VArr (replace_nth i x elems) props)
      | None =>
          if has_key k props then Normal (VArr elems (assoc_replace k x props))
          else Normal (VArr elems (props ++ [(k, x)]))
      end
  | VUndefined | VNull => Throw (TypeError "Cannot set properties of undefined or null")
  | _ => Throw (TypeError "Cannot create property on a primitive")
  end.

(** Truthiness, as [if (v)] tests it. *)
Definition ToBoolean (v : value) : bool :=
  match v with
  | VUndefined | VNull => false
  | VBool b => b
  | VNum (Fin z) => negb (z =? 0)
  | VNum NaN => false
  | VNum _ => true
  | VStr s => negb (String.eqb s "")
  | VArr _ _ | VObj _ _ _ => true
  end.

(** [v == undefined], equally [v == null]. *)
Definition is_nullish (v : value) : bool :=
  match v with
  | VUndefined | VNull => true
  | _ => false
  end.

(** [lodash.isNumber], [lodash.isNaN], [lodash.isString], and the
    global [isNaN] on a number. *)
Definition lodash_isNumber (v : value) : bool :=
  match v with VNum _ => true | _ => false end.
Definition lodash_isNaN (v : value) : bool :=
  match v with VNum NaN => true | _ => false end.
Definition lodash_isString (v : value) : bool :=
  match v with VStr _ => true | _ => false end.
Definition isNaN (n : number) : bool :=
  match n with NaN => true | _ => false end.

(** [v instanceof Error]. *)
Definition instanceof_Error (v : value) : bool :=
  match v with
  | VObj ClsObject _ _ => false
  | VObj _ _ _ => true
  | _ => false
  end.

(** ** JSON

    [json_value v] is [JSON.parse(JSON.stringify(v))] where
    [JSON.stringify] yields text, and [None] where it yields
    [undefined]: numbers that are not finite become [null], properties
    that are not enumerable or hold [undefined] are dropped, [undefined]
    in an array becomes [null], and an [APILogicError] is replaced by
    the result of its [toJSON] method. *)

Definition keep_defined (l : list (string * option value)) : properties :=
  flat_map (fun kv => match snd kv with
                      | Some j => [(fst kv, j)]
                      | None => []
                      end) l.

Definition assoc_opt (k : string) (l : list (string * option value)) : option (option value) :=
  option_map snd (find (fun kv => String.eqb k (fst kv)) l).

(** The serialised [this.k] of an error instance whose own properties
    serialise to [hidden] and [props]. *)
Definition json_field (hidden props : list (string * option value)) (k : string)
  : option value :=
  match assoc_opt k props with
  | Some j => j
  | None => match assoc_opt k hidden with
            | Some j => j
            | None => if String.eqb k "message" then Some (VStr "") else None
            end
  end.

Fixpoint json_value (v : value) : option value :=
  match v with
  | VUndefined => None
  | VNull => Some VNull
  | VBool b => Some (VBool b)
  | VNum (Fin z) => Some (VNum (Fin z))
  | VNum _ => Some VNull
  | VStr s => Some (VStr s)
  | VArr elems _ =>
      Some (VArr ((fix elements (l : list value) : list value :=
                     match l with
                     | [] => []
                     | e :: l' =>
                         match json_value e with Some j => j | None => VNull end
                         :: elements l'
                     end) elems) [])
  | VObj cls hidden props =>
      let own := fix own (l : list (string * value)) : list (string * option value) :=
                   match l with
                   | [] => []
                   | (k, x) :: l' => (k, json_value x) :: own l'
                   end in
      match cls with
      | ClsAPILogicError =>
          let field := json_field (own hidden) (own props) in
          Some (obj (keep_defined
                       [("httpCode", field "httpCode"); ("code", field "logicErrCode");
                        ("title", field "title"); ("message", field "message");
                        ("pars", field "pars")]))
      | _ => Some (obj (keep_defined (own props)))
      end
  end.

Definition JSON_roundtrip (v : value) : completion value :=
  match json_value v with
  | Some j => Normal j
  | None => Throw (SyntaxError "undefined is not valid JSON")
  end.

(** ** Conversion to string

    [ToString v], as [parseInt] applies it to its argument.  An object
    is converted by its [toString] method: [Object.prototype.toString],
    [Array.prototype.toString] (which joins the elements) or
    [Error.prototype.toString].  An own property of that name hides the
    method; no value of the model is callable, so the conversion then
    fails. *)

Definition join_strings (sep : string) (l : list string) : string :=
  match l with
  | [] => ""
  | s :: l' => fold_left (fun acc t => (acc ++ sep ++ t)%string) l' s
  end.

Fixpoint sequence {A : Type} (l : list (completion A)) : completion (list A) :=
  match l with
  | [] => Normal []
  | Throw e :: _ => Throw e
  | Normal a :: l' =>
      match sequence l' with
      | Normal r => Normal (a :: r)
      | Throw e => Throw e
      end
  end.

(** [Error.prototype.toString] from the converted [name] and [message]
    ([None] where the property is [undefined]). *)
Definition error_to_string (name message : option (completion string))
  : completion string :=
  match match name with Some c => c | None => Normal "Error" end with
  | Throw e => Throw e
  | Normal n =>
      match match message with Some c => c | None => Normal "" end with
      | Throw e => Throw e
      | Normal m =>
          if String.eqb n "" then Normal m
          else if String.eqb m "" then Normal n
          else Normal (n ++ ": " ++ m)%string
      end
  end.

Definition find_converted (k : string) (l : list (string * option (completion string)))
  : option (option (completion string)) :=
  option_map snd (find (fun kv => String.eqb k (fst kv)) l).

Fixpoint ToString (v : value) : completion string :=
  match v with
  | VUndefined => Normal "undefined"
  | VNull => Normal "null"
  | VBool true => Normal "true"
  | VBool false => Normal "false"
  | VNum n => Normal (number_to_string n)
  | VStr s => Normal s
  | VArr elems props =>
      if has_key "toString" props
      then Throw (TypeError "Cannot convert object to primitive value")
      else if has_key "join" props then Normal "[object Array]"
      else
        match sequence
                ((fix elements (l : list value) : list (completion string) :=
                    match l with
                    | [] => []
                    | e :: l' =>
                        (if is_nullish e then Normal "" else ToString e) :: elements l'
                    end) elems) with
        | Normal parts => Normal (join_strings "," parts)
        | Throw e => Throw e
        end
  | VObj cls hidden props =>
      if has_key "toString" props || has_key "toString" hidden
      then Throw (TypeError "Cannot convert object to primitive value")
      else
        match cls with
        | ClsObject => Normal "[object Object]"
        | _ =>
            let own := fix own (l : list (string * value))
                         : list (string * option (completion string)) :=
                         match l with
                         | [] => []
                         | (k, x) :: l' =>
                             (k, match x with
                                 | VUndefined => None
                                 | _ => Some (ToString x)
                                 end) :: own l'
                         end in
            let field k :=
              match find_converted k (own props) with
              | Some c => c
              | None => match find_converted k (own hidden) with
                        | Some c => c
                        | None => match proto_get cls k with
                                  | VStr s => Some (Normal s)
                                  | _ => None
                                  end
                        end
              end in
            error_to_string (field "name") (field "message")
        end
  end.

(** The global [parseInt(v)] on any value. *)
Definition parseInt_any (v : value) : completion number :=
  match ToString v with
  | Normal s => Normal (parseInt s 0)
  | Throw e => Throw e
  end.

(** [JSON.stringify v] as text, [None] where it yields [undefined]. *)

Definition quote_char : ascii := ascii_of_nat 34.
Definition backslash_char : ascii := ascii_of_nat 92.

Definition hex_digit (n : Z) : ascii :=
  ascii_of_N (Z.to_N (if n <? 10 then 48 + n else 87 + n)).

Definition escape_char (c : ascii) : string :=
  let n := char_code c in
  let esc (d : string) := String backslash_char d in
  if n =? 34 then esc (String quote_char "")
  else if n =? 92 then esc (String backslash_char "")
  else if n =? 8 then esc "b"
  else if n =? 9 then esc "t"
  else if n =? 10 then esc "n"
  else if n =? 12 then esc "f"
  else if n =? 13 then esc "r"
  else if n <? 32 then
    esc ("u00" ++ String (hex_digit (n / 16)) (String (hex_digit (n mod 16)) ""))%string
  else String c "".

Definition json_quote (s : string) : string :=
  (String quote_char (String.concat "" (map escape_char (list_ascii_of_string s)))
   ++ String quote_char "")%string.

Definition json_member (kv : string * option string) : list string :=
  match snd kv with
  | Some t => [(json_quote (fst kv) ++ ":" ++ t)%string]
  | None => []
  end.

Definition json_object (members : list (string * option string)) : string :=
  ("{" ++ String.concat "," (flat_map json_member members) ++ "}")%string.

Definition text_field (hidden props : list (string * option string)) (k : string)
  : option string :=
  let look l := option_map snd (find (fun kv => String.eqb k (fst kv)) l) in
  match look props with
  | Some t => t
  | None => match look hidden with
            | Some t => t
            | None => if String.eqb k "message" then Some (json_quote "") else None
            end
  end.

Fixpoint JSON_stringify (v : value) : option string :=
  match v with
  | VUndefined => None
  | VNull => Some "null"
  | VBool true => Some "true"
  | VBool false => Some "false"
  | VNum (Fin z) => Some (number_to_string (Fin z))
  | VNum _ => Some "null"
  | VStr s => Some (json_quote s)
  | VArr elems _ =>
      Some ("[" ++ String.concat ","
                     ((fix elements (l : list value) : list string :=
                         match l with
                         | [] => []
                         | e :: l' =>
                             match JSON_stringify e with Some t => t | None => "null" end
                             :: elements l'
                         end) elems) ++ "]")%string
  | VObj cls hidden props =>
      let own := fix own (l : list (string * value)) : list (string * option string) :=
                   match l with
                   | [] => []
                   | (k, x) :: l' => (k, JSON_stringify x) :: own l'
                   end in
      match cls with
      | ClsAPILogicError =>
          let field := text_field (own hidden) (own props) in
          Some (json_object
                  [("httpCode", field "httpCode"); ("code", field "logicErrCode");
                   ("title", field "title"); ("message", field "message");
                   ("pars", field "pars")])
      | _ => Some (json_object (own props))
      end
  end.

(** ** The helpers of [src/index.js] *)

(** *** [APILogicError] and [logicError] *)

(** The context parameters of a logic error: strings, numbers and
    booleans ([Primitives] in the TypeScript source). *)
Inductive primitive : Type :=
| PStr (s : string)
| PNum (n : number)
| PBool (b : bool).

Definition value_of_primitive (p : primitive) : value :=
  match p with
  | PStr s => VStr s
  | PNum n => VNum n
  | PBool b => VBool b
  end.

(** [new APILogicError(title, message, httpCode, logicErrCode, ...pars)].
    [super(message)] creates [message] as a property that is not
    enumerable, and the assignments that follow add the other fields as
    enumerable ones.  The [stack] text is produced by the engine and read
    by no helper; the model leaves it out. *)
Definition new_APILogicError (title message : string) (httpCode logicErrCode : number)
    (pars : list primitive) : value :=
  VObj ClsAPILogicError
    [("message", VStr message)]
    [("title", VStr title); ("httpCode", VNum httpCode);
     ("logicErrCode", VNum logicErrCode);
     ("pars", arr (map value_of_primitive pars))].

(** [APILogicError.prototype.toJSON], called on [this]. *)
Definition toJSON (this : value) : value :=
  obj [("httpCode", get_prop this "httpCode");
       ("code", get_prop this "logicErrCode");
       ("title", get_prop this "title");
       ("message", get_prop this "message");
       ("pars", get_prop this "pars")].

Definition logicError (title msg : string) (httpError errorCode : number)
    (pars : list primitive) : value :=
  new_APILogicError title msg httpError errorCode pars.

(** *** [isEmpty] *)

(** [Object.keys(v).length] for an object or an array. *)
Definition own_keys_length (v : value) : nat :=
  match v with
  | VArr elems props => List.length elems + List.length props
  | VObj _ _ props => List.length props
  | _ => O
  end.

Definition instanceof_Array (v : value) : bool :=
  match v with VArr _ _ => true | _ => false end.

Definition instanceof_Object (v : value) : bool :=
  match v with VArr _ _ | VObj _ _ _ => true | _ => false end.

Definition is_false (v : value) : bool :=
  match v with VBool false => true | _ => false end.

Definition string_length_is_0 (v : value) : bool :=
  match v with VStr s => Nat.eqb (String.length s) 0 | _ => false end.

Definition array_length_is_0 (v : value) : bool :=
  match v with VArr elems _ => Nat.eqb (List.length elems) 0 | _ => false end.

(** The method [isEmpty] of the class [Utils] (lines 74-79).  Callers
    of the module do not reach it: see [exported_isEmpty] below. *)
Definition isEmpty (obj : value) : bool :=
  (is_nullish obj || lodash_isNaN obj || is_false obj)
  || (lodash_isString obj && string_length_is_0 obj)
  || (instanceof_Array obj && array_length_is_0 obj)
  || (instanceof_Object obj && Nat.eqb (own_keys_length obj) 0).

(** [lodash.isEmpty]: [null] and [undefined] are empty; an array or a
    string is empty when its length is 0; any other value is empty when
    it has no own enumerable key, as every number and boolean is. *)
Definition lodash_isEmpty (v : value) : bool :=
  match v with
  | VUndefined | VNull => true
  | VArr elems _ => Nat.eqb (List.length elems) 0
  | VStr s => Nat.eqb (String.length s) 0
  | VObj _ _ props => Nat.eqb (List.length props) 0
  | VNum _ | VBool _ => true
  end.

(** [exports._.isEmpty].  The module ends with
    [exports._ = new Utils(); lodash.merge(exports._, lodash)]: the
    merge assigns every function of lodash to the exported instance as
    an own property, and the own property [isEmpty] hides the method
    [isEmpty] of the class.  (No other method of the class has the name
    of a lodash function.) *)
Definition exported_isEmpty : value -> bool := lodash_isEmpty.

(** *** [pack] *)

(** [lodash.max]: [undefined] on an empty array. *)
Definition lodash_max (l : list nat) : option nat :=
  match l with
  | [] => None
  | x :: l' => Some (fold_left Nat.max l' x)
  end.

(** The loop [for (i = 0; i < n; ++i)] runs for [i = 0 .. n - 1]; with
    [n] undefined the test fails at once. *)
Definition pack (arrs : list (list value)) : list (list value) :=
  let n := lodash_max (map (@List.length value) arrs) in
  map (fun i => map (fun arr => if Nat.ltb i (List.length arr)
                                then nth i arr VUndefined
                                else VUndefined) arrs)
      (seq 0 (match n with Some n => n | None => O end)).

(** *** [parseIntNull] *)

(** [lodash.parseInt(string)] with no radix, on a string: leading white
    space is trimmed and the native [parseInt] is called with radix 0. *)
Definition lodash_parseInt (s : string) : number :=
  parseInt (trimStart s) 0.

(** [parseIntNull] on a string argument. *)
Definition parseIntNull (v : string) : value :=
  let i := lodash_parseInt v in
  if isNaN i then VNull
  else if ToBoolean (VNum i) then VNum i else VNull.

(** *** UUID timestamps *)

Definition getTimeIntFromUUID (uuid_str : string) : completion number :=
  let uuid_arr := split uuid_str "-" in
  match nth_error uuid_arr 2 with
  | None => Throw (TypeError "Cannot read properties of undefined")
  | Some time_hi =>
      let time_str :=
        String.concat "" [substring1 time_hi; nth 1 uuid_arr ""; nth 0 uuid_arr ""] in
      Normal (parseInt time_str 16)
  end.

(** A [Date] is its time value: milliseconds since 1970-01-01, or NaN. *)
Record Date : Type := { time_value : number }.

(** [new Date(n)] on a number: the time value is clipped to
    8.64e15 milliseconds each side of the epoch. *)
Definition new_Date (n : number) : Date :=
  match n with
  | Fin z => if Z.abs z <=? 8640000000000000 then {| time_value := Fin z |}
             else {| time_value := NaN |}
  | _ => {| time_value := NaN |}
  end.

Definition getDateFromUUID (uuid_str : string) : completion Date :=
  match getTimeIntFromUUID uuid_str with
  | Throw e => Throw e
  | Normal t =>
      let timeInt := num_sub t (Fin 122192928000000000) in
      let miliSecsInt := Math_floor (num_div timeInt (Fin 10000)) in
      Normal (new_Date miliSecsInt)
  end.

(** The fields of a UUID in its hyphenated form, and the canonical
    version-1 shape: 8-4-4-4-12 hexadecimal digits, the third group
    starting with the version digit 1. *)
Record uuid_fields : Type := {
  time_low : string;
  time_mid : string;
  time_hi_and_version : string;
  clock_seq : string;
  node : string
}.

Definition is_hex_digit (c : ascii) : bool :=
  match digit_value c with
  | Some d => d <? 16
  | None => false
  end.

Fixpoint all_hex (s : string) : bool :=
  match s with
  | EmptyString => true
  | String c rest => is_hex_digit c && all_hex rest
  end.

Definition hex_group (n : nat) (s : string) : bool :=
  Nat.eqb (String.length s) n && all_hex s.

Definition canonical_v1 (u : uuid_fields) : bool :=
  hex_group 8 (time_low u) && hex_group 4 (time_mid u)
  && hex_group 4 (time_hi_and_version u) && prefix "1" (time_hi_and_version u)
  && hex_group 4 (clock_seq u) && hex_group 12 (node u).

Definition uuid_string (u : uuid_fields) : string :=
  (time_low u ++ "-" ++ time_mid u ++ "-" ++ time_hi_and_version u ++ "-"
   ++ clock_seq u ++ "-" ++ node u)%string.

(** The number a string of digits writes in radix [R], most significant
    digit first. *)
Fixpoint digits_value (R acc : Z) (s : string) : Z :=
  match s with
  | EmptyString => acc
  | String c rest =>
      digits_value R (acc * R + match digit_value c with Some d => d | None => 0 end) rest
  end.

Definition hex_value (s : string) : Z := digits_value 16 0 s.

(** The 60-bit timestamp of a version-1 UUID: the low 12 bits of the
    third field above the 16 bits of the second above the 32 bits of the
    first. *)
Definition timestamp60 (u : uuid_fields) : Z :=
  hex_value (substring1 (time_hi_and_version u)) * 2 ^ 48
  + hex_value (time_mid u) * 2 ^ 32
  + hex_value (time_low u).

(** Ticks of 100ns between 1582-10-15 and 1970-01-01. *)
Definition UUID_EPOCH_OFFSET : Z := 122192928000000000.

(** *** [Pair], [pair], [pairFirst], [pairSecond] *)

Module Pairs.

Record Pair : Type := new_Pair { _1 : value; _2 : value }.

(** [[s1, s2].join(sep)]: an element that is [undefined] joins as the
    empty string. *)
Definition join2 (s1 s2 : option string) (sep : string) : string :=
  let text o := match o with Some s => s | None => "" end in
  (text s1 ++ sep ++ text s2)%string.

Definition render (x : value) : option string :=
  match x with
  | VStr s => Some s
  | VNum n => Some (number_to_string n)
  | _ => JSON_stringify x
  end.

(** [Pair.prototype.str(sep)]. *)
Definition str (this : Pair) (sep : string) : string :=
  let s1 := render (_1 this) in
  let s2 := render (_2 this) in
  join2 s1 s2 sep.

Definition pair (s1 s2 : value) : Pair := new_Pair s1 s2.

(** [a[i]] on the array a split returns. *)
Definition element (l : list string) (i : nat) : value :=
  match nth_error l i with
  | Some s => VStr s
  | None => VUndefined
  end.

Definition pairFirst {T : Type} (s sep : string) (f : value -> T) : T :=
  f (element (split s sep) 0).

Definition pairSecond {T : Type} (s sep : string) (f : value -> T) : T :=
  f (element (split s sep) 1).

(** The default arguments. *)
Definition default_sep : string := "|".
Definition identity (s : value) : value := s.

End Pairs.

(** ** Effects

    Code that writes to the response object or calls back is a
    transition on a state that may end by throwing. *)

Definition M (St A : Type) : Type := St -> completion A * St.

Definition ret {St A : Type} (a : A) : M St A := fun s => (Normal a, s).

Definition bind {St A B : Type} (m : M St A) (k : A -> M St B) : M St B :=
  fun s => match m s with
           | (Normal a, s') => k a s'
           | (Throw e, s') => (Throw e, s')
           end.

Definition lift {St A : Type} (c : completion A) : M St A := fun s => (c, s).

Notation "x <- m ;; k" := (bind m (fun x => k))
  (at level 61, m at next level, right associativity).

(** The response object: its [statusCode] and the bodies handed to
    [send], oldest first. *)
Record Response : Type := { statusCode : value; sent : list value }.

Definition set_statusCode (v : value) : M Response unit :=
  fun r => (Normal tt, {| statusCode := v; sent := sent r |}).

Definition send (body : value) : M Response unit :=
  fun r => (Normal tt, {| statusCode := statusCode r; sent := sent r ++ [body] |}).

(** *** [createServiceCallback]

    The callback [createServiceCallback(resp)] returns, as a transition
    on [resp]. *)
Definition createServiceCallback (err data : value) : M Response unit :=
  resData <- (if ToBoolean data then lift (JSON_roundtrip data) else ret (obj []));;
  _ <- set_statusCode (VNum (Fin 200));;
  resData <-
    (if ToBoolean err then
       errObj <- lift (JSON_roundtrip err);;
       m <- lift (Get errObj "message");;
       errObj <- (if is_nullish m
                  then em <- lift (Get err "message");; lift (SetProp errObj "message" em)
                  else ret errObj);;
       c <- lift (Get errObj "code");;
       errObj <- (if is_nullish c
                  then ec <- lift (Get err "code");;
                       n <- lift (parseInt_any ec);;
                       lift (SetProp errObj "code" (VNum n))
                  else ret errObj);;
       code <- lift (Get err "httpCode");;
       _ <- (if lodash_isNumber code && negb (lodash_isNaN code)
             then set_statusCode code
             else set_statusCode (VNum (Fin 500)));;
       lift (SetProp resData "err" errObj)
     else ret resData);;
  send resData.

(** *** [routeAsync] and [routeNextableAsync] *)

(** A promise, by how it settles. *)
Inductive settled : Type :=
| Fulfilled (v : value)
| Rejected (reason : value)
| Pending.

Definition Callback : Type := value -> value -> M Response unit.

(** The state a route wrapper acts on: the response object, the calls
    made to the terminal callback ([(err, data)], oldest first) and what
    was written with [console.log]. *)
Record RouteState : Type := {
  resp : Response;
  calls : list (value * value);
  console : list value
}.

Definition invoke (callback : Callback) (err data : value) : M RouteState unit :=
  fun s =>
    let '(c, r) := callback err data (resp s) in
    (c, {| resp := r; calls := calls s ++ [(err, data)]; console := console s |}).

Definition console_log (v : value) : M RouteState unit :=
  fun s => (Normal tt, {| resp := resp s; calls := calls s; console := console s ++ [v] |}).

(** [p.then(onFulfilled, onRejected)]: the reaction that applies runs,
    and the promise returned is fulfilled with what it returns (here
    [undefined]) or rejected with what it throws; with no reaction the
    settlement passes through. *)
Definition promise_then (p : settled)
    (onFulfilled onRejected : option (value -> M RouteState unit))
    (s : RouteState) : settled * RouteState :=
  let react f x :=
    match f x s with
    | (Normal _, s') => (Fulfilled VUndefined, s')
    | (Throw e, s') => (Rejected e, s')
    end in
  match p with
  | Pending => (Pending, s)
  | Fulfilled v =>
      match onFulfilled with Some f => react f v | None => (Fulfilled v, s) end
  | Rejected e =>
      match onRejected with Some f => react f e | None => (Rejected e, s) end
  end.

(** [p.catch(onRejected)]. *)
Definition promise_catch (p : settled) (onRejected : value -> M RouteState unit)
  : RouteState -> settled * RouteState :=
  promise_then p None (Some onRejected).

(** An asynchronous request handler: it may write to the response
    before the promise it returns settles. *)
Definition Handler : Type := value -> Response -> settled * Response.

Definition call_handler (reqHandler : Handler) (req : value) (s : RouteState)
  : settled * RouteState :=
  let '(p, r) := reqHandler req (resp s) in
  (p, {| resp := r; calls := calls s; console := console s |}).

Definition terminal_callback (callbackProvider : option (value -> Callback))
    (req : value) : Callback :=
  match callbackProvider with
  | Some provider => provider req
  | None => createServiceCallback
  end.

(** The wrapper [routeAsync(reqHandler, callbackProvider)] returns, run
    on a request until the promise chain has settled; the result is the
    last promise of the chain. *)
Definition routeAsync (reqHandler : Handler)
    (callbackProvider : option (value -> Callback)) (req : value)
    (s : RouteState) : settled * RouteState :=
  let callback := terminal_callback callbackProvider req in
  let '(p, s) := call_handler reqHandler req s in
  let '(p, s) := promise_then p (Some (fun data => invoke callback VNull data)) None s in
  promise_catch p
    (fun err =>
       _ <- (if instanceof_Error err then console_log err else ret tt);;
       invoke callback err VUndefined) s.

Definition routeNextableAsync (reqHandler : Handler)
    (callbackProvider : option (value -> Callback)) (req : value)
    (s : RouteState) : settled * RouteState :=
  let callback := terminal_callback callbackProvider req in
  let '(p, s) := call_handler reqHandler req s in
  promise_then p
    (Some (fun data => if negb (is_nullish data)
                       then invoke callback VNull data
                       else ret tt))
    (Some (fun err => invoke callback err VUndefined)) s.

Definition new_response : Response := {| statusCode := VUndefined; sent := [] |}.
Definition new_route_state : RouteState :=
  {| resp := new_response; calls := []; console := [] |}.

(** ** Further helpers of [src/index.js] *)

(** *** [safe] *)

(** [safe(f, callback)]: [f] receives the callback and may call it; the
    model hands it the recording [invoke callback].  What [f] throws is
    logged and passed to the callback. *)
Definition safe (f : (value -> value -> M RouteState unit) -> M RouteState unit)
    (callback : Callback) : M RouteState unit :=
  fun s =>
    match f (invoke callback) s with
    | (Normal _, s') => (Normal tt, s')
    | (Throw ex, s') => (_ <- console_log ex;; invoke callback ex VUndefined) s'
    end.

(** *** Reading a property under a name the caller chooses

    [requireQueries] and [opt] read properties under names their callers
    choose, and such a name may be that of an inherited method
    ([toString], [constructor]), which [get_prop] does not know.  These
    helpers are therefore modelled over the read itself: [read v k] is
    [v[k]] on a value [v] that is neither [undefined] nor [null], and
    [get_prop] is one such read. *)
Definition PropertyRead : Type := value -> string -> value.

Definition Get_with (read : PropertyRead) (v : value) (k : string) : completion value :=
  match v with
  | VUndefined | VNull => Throw (TypeError "Cannot read properties of undefined or null")
  | _ => Normal (read v k)
  end.

(** *** Middleware: [validBody], [validQuery], [requireQueries],
    [transformBody], [transformQuery] *)

(** What a middleware acts on: the response object and the number of
    times [next] was called. *)
Record MiddlewareState : Type := { m_resp : Response; next_calls : nat }.

Definition on_resp {A : Type} (m : M Response A) : M MiddlewareState A :=
  fun s => let '(c, r) := m (m_resp s) in
           (c, {| m_resp := r; next_calls := next_calls s |}).

Definition next : M MiddlewareState unit :=
  fun s => (Normal tt, {| m_resp := m_resp s; next_calls := S (next_calls s) |}).

(** [resp.statusCode = 400; resp.send({ err: e })]. *)
Definition reject_400 (e : value) : M MiddlewareState unit :=
  _ <- on_resp (set_statusCode (VNum (Fin 400)));;
  on_resp (send (obj [("err", e)])).

(** A validator, as [ajv] compiles it: called on the data it answers
    whether the data is valid, and leaves its findings in
    [validator.errors]. *)
Definition Validator : Type := value -> bool * value.

Definition validate_field (field : string) (validator : Validator) (req : value)
  : M MiddlewareState unit :=
  data <- lift (Get req field);;
  let '(valid, errors) := validator data in
  if negb valid then reject_400 errors else next.

Definition validBody (validator : Validator) (req : value) : M MiddlewareState unit :=
  validate_field "body" validator req.

Definition validQuery (validator : Validator) (req : value) : M MiddlewareState unit :=
  validate_field "query" validator req.

Definition is_undefined (v : value) : bool :=
  match v with VUndefined => true | _ => false end.

(** The loop of [requireQueries]; the result tells whether the loop
    returned from the middleware. *)
Fixpoint requireQueries_loop (read : PropertyRead) (query : list string) (req : value)
  : M MiddlewareState bool :=
  match query with
  | [] => ret false
  | q :: rest =>
      params <- lift (Get req "query");;
      v <- lift (Get_with read params q);;
      if is_undefined v
      then _ <- reject_400 (VStr ("Query " ++ q ++ " is missing"));; ret true
      else requireQueries_loop read rest req
  end.

Definition requireQueries (read : PropertyRead) (query : list string) (req : value)
  : M MiddlewareState unit :=
  returned <- requireQueries_loop read query req;;
  if returned then ret tt else next.

(** [transformBody(schema)] and [transformQuery(schema)].  The call
    [this.transformBySchema(req.body, schema)] runs user functions on the
    request and is taken as a parameter: any transition that may throw.
    The [catch] swallows what it throws and the [finally] calls [next]. *)
Definition transform_field (field : string)
    (transformBySchema : value -> M MiddlewareState unit) (req : value)
  : M MiddlewareState unit :=
  fun s =>
    let '(_, s') := (src <- lift (Get req field);; transformBySchema src) s in
    next s'.

Definition transformBody (transformBySchema : value -> M MiddlewareState unit)
    (req : value) : M MiddlewareState unit :=
  transform_field "body" transformBySchema req.

Definition transformQuery (transformBySchema : value -> M MiddlewareState unit)
    (req : value) : M MiddlewareState unit :=
  transform_field "query" transformBySchema req.

(** *** [arr] *)

(** [i < to] and [++i] on numbers. *)
Definition num_lt (x y : number) : bool :=
  match x, y with
  | NaN, _ | _, NaN => false
  | Fin a, Fin b => a <? b
  | NegInf, NegInf | PosInf, _ | _, NegInf => false
  | _, _ => true
  end.

Definition num_succ (x : number) : number :=
  match x with
  | Fin a => to_double (a + 1)
  | _ => x
  end.

(** How a call of [arr] ends: it returns the array, or [arr.push]
    throws a [RangeError].  An array holds at most 2^32 - 1 elements:
    the push that would make the length 2^32 throws. *)
Inductive arr_result : Type :=
| Returned (elems : list number)
| Invalid_array_length.

Definition max_array_length : Z := 4294967295.

(** The loop [for (i = from; i < to; ++i) arr.push(i)] of the helper
    [arr], run for at most [fuel] tests of the condition; [None] when
    the fuel does not suffice.  (The name [arr] stands for the array
    literal above; the helper is [arr_range] here.) *)
Fixpoint arr_loop (fuel : nat) (i to : number) (acc : list number)
  : option arr_result :=
  match fuel with
  | O => None
  | S fuel' =>
      if num_lt i to then
        if Z.of_nat (List.length acc) <? max_array_length
        then arr_loop fuel' (num_succ i) to (acc ++ [i])
        else Some Invalid_array_length
      else Some (Returned acc)
  end.

Definition arr_range (fuel : nat) (from to : number) : option arr_result :=
  arr_loop fuel from to [].

(** *** [numKeys] *)

Definition index_keys (n : nat) : list string :=
  map (fun i => number_to_string (Fin (Z.of_nat i))) (seq 0 n).

(** [lodash.keys]: the own enumerable keys of an object, the indices
    of an array or a string, nothing for the other primitives. *)
Definition lodash_keys (v : value) : list string :=
  match v with
  | VObj _ _ props => map fst props
  | VArr elems props => index_keys (List.length elems) ++ map fst props
  | VStr s => index_keys (String.length s)
  | _ => []
  end.

Definition numKeys (obj : value) : list number :=
  map (fun k => parseInt k 0) (lodash_keys obj).

(** Whether a string, after leading white space and one sign, starts
    with a decimal digit. *)
Definition starts_with_digit (s : string) : bool :=
  let S := trimStart s in
  let S := match S with
           | String "-"%char r | String "+"%char r => r
           | _ => S
           end in
  match S with
  | String c _ => match digit_value c with Some d => d <? 10 | None => false end
  | EmptyString => false
  end.

(** *** [opt] *)

(** The proxy [opt(t)] wraps [{ some: t }]. *)
Record Opt : Type := opt { some : value }.

(** The [get] trap of the proxy: the key [_] unwraps, any other key
    navigates, and navigation from [null] or [undefined] stays at
    [undefined]. *)
Definition opt_get (read : PropertyRead) (receiver : Opt) (name : string) : value + Opt :=
  if String.eqb name "_" then inl (some receiver)
  else if is_nullish (some receiver) then inr (opt VUndefined)
  else inr (opt (read (some receiver) name)).

(** Where a chain of property reads stands: at a proxy, or at a plain
    value once the key [_] has unwrapped one. *)
Inductive navigated : Type :=
| AtProxy (o : Opt)
| AtValue (v : value).

Definition navigate (read : PropertyRead) (x : navigated) (name : string)
  : completion navigated :=
  match x with
  | AtProxy o =>
      Normal (match opt_get read o name with
              | inl v => AtValue v
              | inr o' => AtProxy o'
              end)
  | AtValue v =>
      match Get_with read v name with
      | Normal v' => Normal (AtValue v')
      | Throw e => Throw e
      end
  end.

(** The chain [opt(t).n1.n2...nk]. *)
Definition opt_path (read : PropertyRead) (t : value) (names : list string)
  : completion navigated :=
  fold_left (fun x name => match x with
                           | Normal x' => navigate read x' name
                           | Throw e => Throw e
                           end) names (Normal (AtProxy (opt t))).

(** The plain chain [t.n1.n2...nk]. *)
Fixpoint get_path (read : PropertyRead) (t : value) (names : list string)
  : completion value :=
  match names with
  | [] => Normal t
  | name :: rest =>
      match Get_with read t name with
      | Normal v => get_path read v rest
      | Throw e => Throw e
      end
  end.

(** *** [zipToObj], [arrToObj], [redishmgetParse] *)

(** A key that is an array index: such keys come first among the own
    properties of an object, in ascending order. *)
Definition array_index (k : string) : option nat :=
  match index_of_key k with
  | Some i => if Z.of_nat i <? 4294967295 then Some i else None
  | None => None
  end.

Fixpoint insert_index (i : nat) (kv : string * value) (l : properties) : properties :=
  match l with
  | [] => [kv]
  | (k', v') :: l' =>
      match array_index k' with
      | Some i' => if Nat.ltb i' i then (k', v') :: insert_index i kv l' else kv :: l
      | None => kv :: l
      end
  end.

(** A new own property: an index key goes among the index keys, any
    other key goes last. *)
Definition add_own (props : properties) (k : string) (x : value) : properties :=
  match array_index k with
  | Some i => insert_index i (k, x) props
  | None => props ++ [(k, x)]
  end.

(** The prototype of an object that starts as the literal [{}]: it is
    [Object.prototype] until an assignment to [__proto__] replaces it,
    by [null] or by an object. *)
Inductive prototype : Type :=
| ProtoObject
| ProtoNull
| ProtoOf (v : value).

(** An object built key by key: its prototype and its own enumerable
    properties, in property order. *)
Record Dict : Type := { dict_proto : prototype; dict_own : properties }.

Definition empty_dict : Dict := {| dict_proto := ProtoObject; dict_own := [] |}.

(** Whether a value has an own property [__proto__], as the result of
    [JSON.parse] may. *)
Definition own_proto_key (v : value) : bool :=
  match v with
  | VObj _ hidden props => has_key "__proto__" props || has_key "__proto__" hidden
  | VArr _ props => has_key "__proto__" props
  | _ => false
  end.

(** Whether [__proto__], looked up from the prototype on, is still the
    accessor of [Object.prototype]: not below a [null] prototype, and
    not where the prototype has a property of that name itself. *)
Definition reaches_setter (p : prototype) : bool :=
  match p with
  | ProtoObject => true
  | ProtoNull => false
  | ProtoOf v => negb (own_proto_key v)
  end.

(** The setter: an object or [null] becomes the prototype, any other
    value is ignored. *)
Definition set_prototype (p : prototype) (x : value) : prototype :=
  match x with
  | VNull => ProtoNull
  | VArr _ _ | VObj _ _ _ => ProtoOf x
  | _ => p
  end.

(** The assignment [d[k] = x]: an own property is overwritten in
    place; otherwise the key [__proto__] goes to the setter where the
    object still inherits it; otherwise the key becomes a new own
    property (every other property such an object inherits is a
    writable data property). *)
Definition dict_assign (d : Dict) (k : string) (x : value) : Dict :=
  if has_key k (dict_own d)
  then {| dict_proto := dict_proto d; dict_own := assoc_replace k x (dict_own d) |}
  else if String.eqb k "__proto__" && reaches_setter (dict_proto d)
  then {| dict_proto := set_prototype (dict_proto d) x; dict_own := dict_own d |}
  else {| dict_proto := dict_proto d; dict_own := add_own (dict_own d) k x |}.

(** [zipToObj(keys, fVal)]. *)
Definition zipToObj (keys : list string) (fVal : string -> value) : Dict :=
  fold_left (fun obj k => dict_assign obj k (fVal k)) keys empty_dict.

(** [arrToObj(arr, keyMap, valMap)]. *)
Definition arrToObj {T : Type} (arr : list T) (keyMap : T -> string)
    (valMap : T -> value) : Dict :=
  fold_left (fun ret t => dict_assign ret (keyMap t) (valMap t)) arr empty_dict.

(** [lodash.mapValues(dict, iterator)], as the own properties of the
    plain object it returns: every own property of [dict] keeps its key
    and place and gets [iterator(value, key)]; an absent iterator is the
    identity. *)
Definition lodash_mapValues (dict : properties)
    (iterator : option (value -> string -> value)) : properties :=
  map (fun kv => (fst kv, match iterator with
                          | Some f => f (snd kv) (fst kv)
                          | None => snd kv
                          end)) dict.

(** [redishmgetParse(keys, data, iterator, empty)], as the own
    properties of the result. *)
Definition redishmgetParse (keys : list string) (data : list value)
    (iterator : option (value -> string -> value)) (empty : bool) : properties :=
  let dict :=
    fold_left
      (fun dict i =>
         let key := nth i keys "" in
         let val := if Nat.ltb i (List.length data) then nth i data VUndefined
                    else VUndefined in
         if ToBoolean val || empty then dict_assign dict key val else dict)
      (seq 0 (List.length keys)) empty_dict in
  lodash_mapValues (dict_own dict) iterator.

(** The context parameters that serialise to themselves: every number
    among them is finite. *)
Definition finite_primitive (p : primitive) : bool :=
  match p with
  | PNum (Fin _) => true
  | PNum _ => false
  | _ => true
  end.

(** ** The documented behaviour, for comparison

    Definitions that follow the wording of the documentation rather
    than the code; the properties below compare them with the code. *)

(** The inputs documented as empty: null and undefined, NaN, false,
    the empty string, the empty array, and a plain object with no own
    keys. *)
Definition documented_empty (v : value) : bool :=
  match v with
  | VUndefined | VNull => true
  | VNum NaN => true
  | VBool false => true
  | VStr EmptyString => true
  | VArr [] [] => true
  | VObj ClsObject [] [] => true
  | _ => false
  end.

(** The documented response status for an error: its [httpCode] when
    that is a finite number, 500 otherwise. *)
Definition documented_status (err : value) : value :=
  match get_prop err "httpCode" with
  | VNum (Fin z) => VNum (Fin z)
  | _ => VNum (Fin 500)
  end.

(** ** Auxiliary definitions *)

(** The values that are not objects: [JSON.parse(JSON.stringify(v))]
    of one that is neither [undefined] nor [null] is no object either. *)
Definition is_primitive (v : value) : bool :=
  match v with
  | VArr _ _ | VObj _ _ _ => false
  | _ => true
  end.

(** Property assignment on an object or an array, which does not
    throw. *)
Definition set_prop (v : value) (k : string) (x : value) : value :=
  match SetProp v k x with
  | Normal v' => v'
  | Throw _ => v
  end.

(** The status the callback sets for an error. *)
Definition error_status (err : value) : value :=
  let code := get_prop err "httpCode" in
  if lodash_isNumber code && negb (lodash_isNaN code) then code else VNum (Fin 500).

(** The error object the callback sends: the serialised error [j] with
    [message] taken from the error and [code] set to the number [n]
    where the serialised error has none. *)
Definition backfilled (err j : value) (n : number) : value :=
  let errObj :=
    if is_nullish (get_prop j "message")
    then set_prop j "message" (get_prop err "message") else j in
  if is_nullish (get_prop errObj "code")
  then set_prop errObj "code" (VNum n) else errObj.

(** The number a decimal numeral writes, most significant digit
    first, continuing from [acc]. *)
Fixpoint uint_val (d : Decimal.uint) (acc : Z) : Z :=
  match d with
  | Decimal.Nil => acc
  | Decimal.D0 l => uint_val l (acc * 10 + 0)
  | Decimal.D1 l => uint_val l (acc * 10 + 1)
  | Decimal.D2 l => uint_val l (acc * 10 + 2)
  | Decimal.D3 l => uint_val l (acc * 10 + 3)
  | Decimal.D4 l => uint_val l (acc * 10 + 4)
  | Decimal.D5 l => uint_val l (acc * 10 + 5)
  | Decimal.D6 l => uint_val l (acc * 10 + 6)
  | Decimal.D7 l => uint_val l (acc * 10 + 7)
  | Decimal.D8 l => uint_val l (acc * 10 + 8)
  | Decimal.D9 l => uint_val l (acc * 10 + 9)
  end.

(** *** Outcomes named in the statements below *)

Definition rejected_400 (s : MiddlewareState) (e : value) : MiddlewareState :=
  {| m_resp := {| statusCode := VNum (Fin 400);
                  sent := sent (m_resp s) ++ [obj [("err", e)]] |};
     next_calls := next_calls s |}.

Definition passed_on (s : MiddlewareState) : MiddlewareState :=
  {| m_resp := m_resp s; next_calls := S (next_calls s) |}.

Definition get_path_or_undefined (read : PropertyRead) (t : value) (names : list string)
  : value :=
  match get_path read t names with
  | Normal v => v
  | Throw _ => VUndefined
  end.

(** What reaches the [catch] reaction of [routeAsync]: the rejection of
    the handler, or what the callback threw on the success call. *)
Definition caught (reqHandler : Handler) (callback : Callback) (req : value)
    (s : RouteState) : option value :=
  match reqHandler req (resp s) with
  | (Rejected err, _) => Some err
  | (Fulfilled data, r) =>
      match callback VNull data r with
      | (Throw e, _) => Some e
      | (Normal _, _) => None
      end
  | (Pending, _) => None
  end.

(** ** Sample inputs *)

(** A handler whose promise is fulfilled with [{ok: true}], and a
    terminal callback that throws when it is called without an error
    (a response that cannot be written, say). *)
Definition handler_ok : Handler :=
  fun _ r => (Fulfilled (obj [("ok", VBool true)]), r).

Definition send_failed : value := VObj ClsError [("message", VStr "send failed")] [].

Definition callback_failing_on_success : Callback :=
  fun err _ => if is_nullish err then lift (Throw send_failed) else ret tt.

(** A terminal callback that does nothing and returns. *)
Definition callback_noop : Callback := fun _ _ => ret tt.

(** Whether a string holds a given code unit. *)
Fixpoint has_char (c : ascii) (s : string) : bool :=
  match s with
  | EmptyString => false
  | String c' rest => Ascii.eqb c c' || has_char c rest
  end.

(** A canonical version-1 UUID whose timestamp, 2^56 + 1, is not a
    double. *)
Definition uuid_odd_timestamp : uuid_fields :=
  {| time_low := "00000001"; time_mid := "0000"; time_hi_and_version := "1100";
     clock_seq := "8000"; node := "000000000000" |}.

(** A canonical version-1 UUID made on 2017-12-21. *)
Definition uuid_2017 : uuid_fields :=
  {| time_low := "a1b2c3d4"; time_mid := "e5f6"; time_hi_and_version := "11e7";
     clock_seq := "8000"; node := "000000000000" |}.

(** * Properties *)

(** ** The model on sample inputs *)

Example number_to_string_examples :
  number_to_string (Fin 42) = "42" /\ number_to_string (Fin (-7)) = "-7" /\
  number_to_string (Fin (2 ^ 60)) = "1152921504606847000" /\
  number_to_string (Fin (10 ^ 20)) = "100000000000000000000" /\
  number_to_string (Fin (10 ^ 21)) = "1e+21" /\
  number_to_string (Fin (- (2 ^ 70))) = "-1.1805916207174113e+21" /\
  parseInt_any (VNum (Fin (10 ^ 21))) = Normal (Fin 1).
Proof. vm_compute. repeat split. Qed.

Example parseInt_examples :
  parseInt "42" 0 = Fin 42 /\ parseInt "  -7px" 0 = Fin (-7) /\
  parseInt "0x1F" 0 = Fin 31 /\ parseInt "ff" 16 = Fin 255 /\
  parseInt "ff" 0 = NaN /\ parseInt "" 0 = NaN /\ parseInt "12" 1 = NaN /\
  parseInt "20000000000001" 16 = Fin (2 ^ 53).
Proof. vm_compute. repeat split. Qed.

Example split_examples :
  split "a|b" "|" = ["a"; "b"] /\ split "|" "|" = [""; ""] /\
  split "" "|" = [""] /\ split "" "" = [] /\ split "abc" "" = ["a"; "b"; "c"] /\
  split "a--b-c" "--" = ["a"; "b-c"] /\ split "ab" "|" = ["ab"].
Proof. vm_compute. repeat split. Qed.

Example ToString_examples :
  ToString (arr [VNum (Fin 1); VNull; VStr "x"]) = Normal "1,,x" /\
  ToString (obj [("a", VNum (Fin 1))]) = Normal "[object Object]" /\
  ToString (VObj ClsError [("message", VStr "boom")] []) = Normal "Error: boom" /\
  ToString (VObj ClsTypeError [] []) = Normal "TypeError" /\
  parseInt_any VUndefined = Normal NaN /\
  parseInt_any (VNum (Fin 10)) = Normal (Fin 10) /\
  parseInt_any (arr [VNum (Fin 5)]) = Normal (Fin 5).
Proof. vm_compute. repeat split. Qed.

Example json_value_examples :
  json_value (obj [("a", VNum (Fin 1)); ("b", VUndefined); ("c", VNum PosInf)])
  = Some (obj [("a", VNum (Fin 1)); ("c", VNull)]) /\
  json_value (arr [VUndefined; VNum NaN; VStr "s"]) = Some (arr [VNull; VNull; VStr "s"]) /\
  json_value (VObj ClsError [("message", VStr "boom")] []) = Some (obj []) /\
  json_value (VNum PosInf) = Some VNull.
Proof. vm_compute. repeat split. Qed.

Example JSON_stringify_examples :
  JSON_stringify (obj [("a", VNum (Fin 1)); ("b", VUndefined); ("c", arr [VNull; VBool true])])
  = Some (json_object [("a", Some "1"); ("c", Some "[null,true]")]) /\
  JSON_stringify (arr [VNum (Fin (-3)); VUndefined]) = Some "[-3,null]" /\
  JSON_stringify (obj []) = Some "{}" /\
  String.length (json_quote "a|b") = 5%nat.
Proof. vm_compute. repeat split. Qed.

Example uuid_examples :
  getTimeIntFromUUID "a1b2c3d4-e5f6-11e7-8000-000000000000" = Normal (Fin 137331161095652304) /\
  getDateFromUUID "a1b2c3d4-e5f6-11e7-8000-000000000000"
  = Normal {| time_value := Fin 1513823309565 |} /\
  getTimeIntFromUUID "abc" = Throw (TypeError "Cannot read properties of undefined") /\
  to_double 122192928000000000 = Fin 122192928000000000.
Proof. vm_compute. repeat split. Qed.

Example createServiceCallback_examples :
  createServiceCallback VNull (obj [("a", VNum (Fin 1))]) new_response
  = (Normal tt, {| statusCode := VNum (Fin 200); sent := [obj [("a", VNum (Fin 1))]] |}) /\
  createServiceCallback (obj [("httpCode", VNum (Fin 404)); ("message", VStr "nf")])
                        VUndefined new_response
  = (Normal tt,
     {| statusCode := VNum (Fin 404);
        sent := [obj [("err", obj [("httpCode", VNum (Fin 404)); ("message", VStr "nf");
                                   ("code", VNum NaN)])]] |}) /\
  createServiceCallback (VObj ClsError [("message", VStr "boom")] []) VUndefined new_response
  = (Normal tt,
     {| statusCode := VNum (Fin 500);
        sent := [obj [("err", obj [("message", VStr "boom"); ("code", VNum NaN)])]] |}) /\
  createServiceCallback (logicError "T" "M" (Fin 404) (Fin 10) [PStr "x"]) VUndefined new_response
  = (Normal tt,
     {| statusCode := VNum (Fin 404);
        sent := [obj [("err", toJSON (logicError "T" "M" (Fin 404) (Fin 10) [PStr "x"]))]] |}).
Proof. vm_compute. repeat split. Qed.

(** ** [logicError] and [toJSON] *)

(** C7: for all titles, messages, status codes, error codes and
    primitive context parameters, the error built by [logicError]
    serialises through [toJSON] to exactly the five fields [httpCode],
    [code], [title], [message] and [pars], holding the constructor
    arguments; [logicError("T", "M", 404, 10, "x").toJSON()] is
    [{httpCode: 404, code: 10, title: "T", message: "M", pars: ["x"]}]. *)
Theorem logicError_toJSON :
  (forall (title msg : string) (httpCode code : number) (pars : list primitive),
      toJSON (logicError title msg httpCode code pars)
      = obj [("httpCode", VNum httpCode); ("code", VNum code);
             ("title", VStr title); ("message", VStr msg);
             ("pars", arr (map value_of_primitive pars))])
  /\ toJSON (logicError "T" "M" (Fin 404) (Fin 10) [PStr "x"])
     = obj [("httpCode", VNum (Fin 404)); ("code", VNum (Fin 10));
            ("title", VStr "T"); ("message", VStr "M");
            ("pars", arr [VStr "x"])].
Proof.
  split; [intros | reflexivity].
  unfold toJSON, logicError, new_APILogicError. cbn. reflexivity.
Qed.

(** ** [parseIntNull] *)

(** C9: [parseIntNull] answers null exactly when the parse fails or the
    parsed value is zero, and the parsed number otherwise; so
    [parseIntNull("0")] is null, the same answer as for an input that
    does not parse. *)
Theorem parseIntNull_zero_is_null :
  (forall s : string,
      parseIntNull s = VNull
      <-> (lodash_parseInt s = NaN \/ lodash_parseInt s = Fin 0))
  /\ (forall s : string,
         parseIntNull s = VNull \/ parseIntNull s = VNum (lodash_parseInt s))
  /\ parseIntNull "0" = VNull
  /\ parseIntNull "zero" = parseIntNull "0".
Proof.
  split; [| split; [| split; reflexivity]].
  - intro s. unfold parseIntNull.
    destruct (lodash_parseInt s) as [z| | |]; cbn.
    + destruct (Z.eqb_spec z 0) as [-> | Hz]; cbn.
      * split; auto.
      * split; [discriminate |].
        intros [H | H]; [discriminate | congruence].
    + split; auto.
    + split; [discriminate | intros [H | H]; discriminate].
    + split; [discriminate | intros [H | H]; discriminate].
  - intro s. unfold parseIntNull.
    destruct (lodash_parseInt s) as [z| | |]; cbn; auto.
    destruct (z =? 0); cbn; auto.
Qed.

(** ** [isEmpty] *)

(** The method [isEmpty] of the class on an error instance: it has no
    enumerable own key, so the method answers true although the value
    is none of the documented empty inputs. *)
Lemma isEmpty_error_instance :
  isEmpty (VObj ClsError [("message", VStr "boom")] []) = true
  /\ documented_empty (VObj ClsError [("message", VStr "boom")] []) = false.
Proof. split; reflexivity. Qed.

(** The method [isEmpty] of the class is true exactly for null and
    undefined, NaN, false, the empty string, an array of length 0, and
    any instance of [Object] (array, plain object, error instance) that
    has no enumerable own key; it is false for every other input, such
    as 0 and [[0]]. *)
Theorem isEmpty_characterisation :
  (forall v : value,
      isEmpty v = true
      <-> (is_nullish v = true \/ v = VNum NaN \/ v = VBool false \/ v = VStr ""
           \/ (exists props, v = VArr [] props)
           \/ (instanceof_Object v = true /\ own_keys_length v = O)))
  /\ isEmpty (VNum (Fin 0)) = false
  /\ isEmpty (arr [VNum (Fin 0)]) = false.
Proof.
  split; [| split; reflexivity].
  intro v; split.
  - destruct v as [| | [|] | [z| | |] | [|c s] | [|e elems] props | cls hidden [|p props]];
      cbn; intro H; try discriminate; auto 10.
    right; right; right; right; left. eauto.
  - intros [H | [H | [H | [H | [[props H] | [H1 H2]]]]]]; subst; try reflexivity.
    + destruct v; try discriminate; reflexivity.
    + destruct v as [| | | | | elems props | cls hidden props]; try discriminate.
      * cbn in H2. destruct elems, props; try discriminate. reflexivity.
      * cbn in H2. destruct props; try discriminate. reflexivity.
Qed.

(** C6, code bug: the function a caller reaches as [_.isEmpty] is
    [lodash.isEmpty], which line 353 puts over the method of the class.
    It is true for every number and boolean, for the empty string and
    for every array without elements and object without enumerable own
    keys, and false otherwise: [_.isEmpty(0)], [_.isEmpty(5)] and
    [_.isEmpty(true)] are true, where the documentation, and the method
    that was written for it, say false. *)
Theorem exported_isEmpty_is_lodash :
  (forall v : value,
      exported_isEmpty v = true
      <-> match v with
          | VStr s => s = ""
          | VArr elems _ => elems = []
          | VObj _ _ props => props = []
          | _ => True
          end)
  /\ exported_isEmpty (VNum (Fin 0)) = true
  /\ exported_isEmpty (VNum (Fin 5)) = true
  /\ exported_isEmpty (VBool true) = true
  /\ documented_empty (VNum (Fin 0)) = false
  /\ documented_empty (VNum (Fin 5)) = false
  /\ documented_empty (VBool true) = false
  /\ isEmpty (VNum (Fin 0)) = false.
Proof.
  split; [| repeat split].
  intro v. destruct v as [| | b | n | [|c s] | [|e elems] props | cls hidden [|p props]];
    cbn; split; intro H; try reflexivity; try discriminate; auto.
Qed.

(** ** [pack] *)

Lemma fold_left_max_init (l : list nat) (x : nat) :
  fold_left Nat.max l x = Nat.max x (fold_right Nat.max O l).
Proof.
  revert x; induction l as [|y l IH]; intro x; cbn.
  - now rewrite Nat.max_0_r.
  - rewrite IH. now rewrite Nat.max_assoc.
Qed.

Lemma lodash_max_longest (l : list nat) :
  match lodash_max l with Some n => n | None => O end = fold_right Nat.max O l.
Proof.
  destruct l as [|x l]; cbn; [reflexivity | apply fold_left_max_init].
Qed.

(** C5: for every list of input arrays, [pack] returns as many tuples
    as the longest input has elements (none when every input is empty),
    tuple [i] holds element [i] of each input, with [undefined] where an
    input is too short, and nothing is thrown;
    [pack([1,2,3], [a,b])] is [[[1,a],[2,b],[3,undefined]]]. *)
Theorem pack_longest_and_padded :
  (forall arrs : list (list value),
      List.length (pack arrs) = fold_right Nat.max O (map (@List.length value) arrs)
      /\ forall i : nat,
          (i < List.length (pack arrs))%nat ->
          nth_error (pack arrs) i
          = Some (map (fun a => match nth_error a i with
                                | Some x => x
                                | None => VUndefined
                                end) arrs))
  /\ (forall a b : value,
         pack [[VNum (Fin 1); VNum (Fin 2); VNum (Fin 3)]; [a; b]]
         = [[VNum (Fin 1); a]; [VNum (Fin 2); b]; [VNum (Fin 3); VUndefined]]).
Proof.
  split; [| reflexivity].
  intro arrs. unfold pack. rewrite lodash_max_longest.
  set (n := fold_right Nat.max O (map (@List.length value) arrs)).
  split.
  - now rewrite length_map, length_seq.
  - intros i Hi. rewrite length_map, length_seq in Hi.
    rewrite nth_error_map, nth_error_seq.
    destruct (Nat.ltb_spec i n) as [_ | Hge]; [| lia].
    cbv [option_map]; cbn [Nat.add].
    f_equal. apply map_ext. intro a.
    destruct (Nat.ltb_spec i (List.length a)) as [Hlt | Hge].
    + destruct (nth_error a i) eqn:E.
      * now apply nth_error_nth.
      * apply nth_error_None in E. lia.
    + destruct (nth_error a i) eqn:E; [| reflexivity].
      assert (nth_error a i <> None) as Hn by congruence.
      apply nth_error_Some in Hn. lia.
Qed.

(** ** [routeAsync] and [routeNextableAsync] *)

(** What the wrappers add to the record of calls, by how the handler's
    promise settles. *)
Lemma call_handler_calls (reqHandler : Handler) (req : value) (s : RouteState) :
  fst (call_handler reqHandler req s) = fst (reqHandler req (resp s))
  /\ calls (snd (call_handler reqHandler req s)) = calls s.
Proof.
  unfold call_handler. destruct (reqHandler req (resp s)); split; reflexivity.
Qed.

Lemma invoke_calls (callback : Callback) (err data : value) (s : RouteState) :
  calls (snd (invoke callback err data s)) = calls s ++ [(err, data)].
Proof.
  unfold invoke. destruct (callback err data (resp s)); reflexivity.
Qed.

(** C8: the wrapper of [routeNextableAsync] calls back with
    [(null, result)] only when the handler's result is neither
    [undefined] nor [null]; an absent result causes no call; a failure
    of the handler always causes the one call [(error)]. *)
Theorem routeNextableAsync_calls :
  forall (reqHandler : Handler) (callbackProvider : option (value -> Callback))
         (req : value) (s : RouteState),
    calls (snd (routeNextableAsync reqHandler callbackProvider req s))
    = calls s
      ++ match fst (reqHandler req (resp s)) with
         | Fulfilled data => if is_nullish data then [] else [(VNull, data)]
         | Rejected err => [(err, VUndefined)]
         | Pending => []
         end.
Proof.
  intros. unfold routeNextableAsync.
  destruct (call_handler_calls reqHandler req s) as [Hp Hc].
  destruct (call_handler reqHandler req s) as [p s1]. cbn [fst snd] in Hp, Hc.
  rewrite <- Hp, <- Hc. unfold promise_then.
  set (callback := terminal_callback callbackProvider req).
  destruct p as [data | err |].
  - destruct (is_nullish data); cbn [negb].
    + cbn. now rewrite app_nil_r.
    + pose proof (invoke_calls callback VNull data s1) as H.
      destruct (invoke callback VNull data s1) as [[|] s2]; exact H.
  - pose proof (invoke_calls callback err VUndefined s1) as H.
    destruct (invoke callback err VUndefined s1) as [[|] s2]; exact H.
  - cbn. now rewrite app_nil_r.
Qed.

(** C2 at a failing input: the handler succeeds and the callback throws
    on the success call; the rejection of the [then] promise reaches the
    [catch] reaction, which calls the callback a second time, with what
    the first call threw. *)
Theorem routeAsync_calls_back_twice :
  calls (snd (routeAsync handler_ok (Some (fun _ => callback_failing_on_success))
                         VNull new_route_state))
  = [(VNull, obj [("ok", VBool true)]); (send_failed, VUndefined)].
Proof. reflexivity. Qed.

(** The sibling wrapper at the same input calls back once: both
    reactions are given to one [then]. *)
Lemma routeNextableAsync_calls_back_once :
  calls (snd (routeNextableAsync handler_ok (Some (fun _ => callback_failing_on_success))
                                 VNull new_route_state))
  = [(VNull, obj [("ok", VBool true)])]
  /\ fst (routeNextableAsync handler_ok (Some (fun _ => callback_failing_on_success))
                             VNull new_route_state)
     = Rejected send_failed.
Proof. split; reflexivity. Qed.

(** [routeAsync] calls back exactly once whenever the call on success
    returns: with [(null, result)] on success and with [(error)] on
    failure. *)
Lemma routeAsync_calls_when_callback_returns :
  forall (reqHandler : Handler) (callbackProvider : option (value -> Callback))
         (req : value) (s : RouteState),
    (forall data r, exists r',
        terminal_callback callbackProvider req VNull data r = (Normal tt, r')) ->
    calls (snd (routeAsync reqHandler callbackProvider req s))
    = calls s
      ++ match fst (reqHandler req (resp s)) with
         | Fulfilled data => [(VNull, data)]
         | Rejected err => [(err, VUndefined)]
         | Pending => []
         end.
Proof.
  intros reqHandler callbackProvider req s Hret. unfold routeAsync.
  destruct (call_handler_calls reqHandler req s) as [Hp Hc].
  destruct (call_handler reqHandler req s) as [p s1]. cbn [fst snd] in Hp, Hc.
  rewrite <- Hp, <- Hc.
  set (callback := terminal_callback callbackProvider req) in *.
  destruct p as [data | err |]; cbn [promise_then promise_catch].
  - pose proof (invoke_calls callback VNull data s1) as H.
    destruct (Hret data (resp s1)) as [r' Hr].
    unfold invoke in *. rewrite Hr in *. exact H.
  - unfold promise_catch, promise_then, bind.
    destruct (instanceof_Error err).
    + unfold console_log.
      match goal with
      | |- context [invoke callback err VUndefined ?s2] =>
          pose proof (invoke_calls callback err VUndefined s2) as H;
          destruct (invoke callback err VUndefined s2) as [[|] s3]; exact H
      end.
    + unfold ret.
      pose proof (invoke_calls callback err VUndefined s1) as H.
      destruct (invoke callback err VUndefined s1) as [[|] s3]; exact H.
  - cbn. now rewrite app_nil_r.
Qed.

Lemma routeAsync_calls_when_callback_returns_witness :
  calls (snd (routeAsync handler_ok (Some (fun _ => callback_noop)) VNull new_route_state))
  = calls new_route_state
    ++ match fst (handler_ok VNull (resp new_route_state)) with
       | Fulfilled data => [(VNull, data)]
       | Rejected err => [(err, VUndefined)]
       | Pending => []
       end.
Proof.
  apply (routeAsync_calls_when_callback_returns
           handler_ok (Some (fun _ => callback_noop)) VNull new_route_state).
  intros data r. exists r. reflexivity.
Defined.

(** ** [Pair] *)

Lemma append_empty_r (s : string) : (s ++ "")%string = s.
Proof. induction s as [|c s IH]; cbn; [reflexivity | now rewrite IH]. Qed.

Lemma length_append (s t : string) :
  String.length (s ++ t) = (String.length s + String.length t)%nat.
Proof. induction s as [|c s IH]; cbn; [reflexivity | now rewrite IH]. Qed.

Lemma append_assoc (s t u : string) : ((s ++ t) ++ u)%string = (s ++ (t ++ u))%string.
Proof. induction s as [|c s IH]; cbn; [reflexivity | now rewrite IH]. Qed.

Lemma prefix_empty (s : string) : prefix "" s = true.
Proof. destruct s; reflexivity. Qed.

Lemma prefix_char (c c' : ascii) (s : string) :
  prefix (String c "") (String c' s) = Ascii.eqb c c'.
Proof.
  cbn. destruct (ascii_dec c c') as [->|N].
  - now rewrite prefix_empty, Ascii.eqb_refl.
  - symmetry. now apply Ascii.eqb_neq.
Qed.

Lemma split_from_char_free (c : ascii) (s cur : string) :
  has_char c s = false ->
  split_from (String c "") 0 cur s = [(cur ++ s)%string].
Proof.
  revert cur; induction s as [|c' s IH]; intros cur H.
  - cbn. now rewrite append_empty_r.
  - cbn [has_char] in H. apply orb_false_iff in H as [Hc Hs].
    cbn [split_from]. rewrite prefix_char, Hc.
    rewrite IH by assumption. now rewrite append_assoc.
Qed.

Lemma split_from_char_first (c : ascii) (s cur rest : string) :
  has_char c s = false ->
  split_from (String c "") 0 cur (s ++ String c rest)
  = (cur ++ s)%string :: split_from (String c "") 0 "" rest.
Proof.
  revert cur; induction s as [|c' s IH]; intros cur H.
  - cbn [append split_from]. rewrite prefix_char, Ascii.eqb_refl.
    now rewrite append_empty_r.
  - cbn [has_char] in H. apply orb_false_iff in H as [Hc Hs].
    cbn [append split_from]. rewrite prefix_char, Hc.
    rewrite IH by assumption. now rewrite append_assoc.
Qed.

(** C10: for strings [s1] and [s2] that hold no [|], the rendered pair
    decomposes again: with the default separator and the identity
    transform, [pairFirst(pair(s1, s2).str())] is [s1] and
    [pairSecond(pair(s1, s2).str())] is [s2]. *)
Theorem pair_str_roundtrip :
  forall s1 s2 : string,
    has_char "|" s1 = false ->
    has_char "|" s2 = false ->
    Pairs.pairFirst (Pairs.str (Pairs.pair (VStr s1) (VStr s2)) Pairs.default_sep)
                    Pairs.default_sep Pairs.identity = VStr s1
    /\ Pairs.pairSecond (Pairs.str (Pairs.pair (VStr s1) (VStr s2)) Pairs.default_sep)
                        Pairs.default_sep Pairs.identity = VStr s2.
Proof.
  intros s1 s2 H1 H2.
  unfold Pairs.pairFirst, Pairs.pairSecond, Pairs.str, Pairs.pair, Pairs.identity,
    Pairs.default_sep, Pairs.join2, Pairs.render, split. cbn [Pairs._1 Pairs._2].
  change ("|" ++ s2)%string with (String "|"%char s2).
  rewrite split_from_char_first by assumption.
  rewrite split_from_char_free by assumption.
  split; reflexivity.
Qed.

Lemma pair_str_roundtrip_witness :
  Pairs.pairFirst (Pairs.str (Pairs.pair (VStr "user") (VStr "42")) Pairs.default_sep)
                  Pairs.default_sep Pairs.identity = VStr "user"
  /\ Pairs.pairSecond (Pairs.str (Pairs.pair (VStr "user") (VStr "42")) Pairs.default_sep)
                      Pairs.default_sep Pairs.identity = VStr "42".
Proof. apply (pair_str_roundtrip "user" "42"); reflexivity. Defined.

(** ** [createServiceCallback] *)

Lemma SetProp_object (v : value) (k : string) (x : value) :
  instanceof_Object v = true ->
  SetProp v k x = Normal (set_prop v k x)
  /\ instanceof_Object (set_prop v k x) = true.
Proof.
  unfold set_prop.
  destruct v as [| | | | | elems props | cls hidden props]; try discriminate; intros _; cbn.
  - destruct (index_of_key k); [auto |]. destruct (has_key k props); auto.
  - destruct (has_key k props); [auto |]. destruct (has_key k hidden); auto.
Qed.

Lemma Get_object (v : value) (k : string) :
  instanceof_Object v = true -> Get v k = Normal (get_prop v k).
Proof. destruct v; try discriminate; reflexivity. Qed.

Lemma assoc_replace_same (k : string) (x : value) (l : properties) :
  has_key k l = true -> assoc k (assoc_replace k x l) = Some x.
Proof.
  unfold has_key. induction l as [|[k' v] l IH]; cbn; [discriminate |].
  destruct (String.eqb k k') eqn:E; cbn; rewrite E; auto.
Qed.

Lemma assoc_replace_other (k k' : string) (x : value) (l : properties) :
  k <> k' -> assoc k' (assoc_replace k x l) = assoc k' l.
Proof.
  intro N. induction l as [|[k0 v] l IH]; cbn; [reflexivity |].
  destruct (String.eqb_spec k k0) as [->|N0]; cbn.
  - destruct (String.eqb_spec k' k0); [congruence | reflexivity].
  - now rewrite IH.
Qed.

Lemma assoc_app_new (k : string) (x : value) (l : properties) :
  has_key k l = false -> assoc k (l ++ [(k, x)]) = Some x.
Proof.
  unfold has_key. induction l as [|[k' v] l IH]; cbn.
  - now rewrite String.eqb_refl.
  - destruct (String.eqb k k'); [discriminate | exact IH].
Qed.

Lemma assoc_app_other (k k' : string) (x : value) (l : properties) :
  k <> k' -> assoc k' (l ++ [(k, x)]) = assoc k' l.
Proof.
  intro N. induction l as [|[k0 v] l IH]; cbn.
  - destruct (String.eqb_spec k' k); [congruence | reflexivity].
  - now rewrite IH.
Qed.

Lemma has_key_assoc_none (k : string) (l : properties) :
  has_key k l = false -> assoc k l = None.
Proof. unfold has_key. destruct (assoc k l); [discriminate | reflexivity]. Qed.

(** Reading back the key just assigned. *)
Lemma get_set_same (v : value) (k : string) (x : value) :
  instanceof_Object v = true ->
  index_of_key k = None ->
  String.eqb k "length" = false ->
  get_prop (set_prop v k x) k = x.
Proof.
  unfold set_prop.
  destruct v as [| | | | | elems props | cls hidden props]; try discriminate;
    intros _ Hi Hl; cbn.
  - rewrite Hi. destruct (has_key k props) eqn:E; cbn; rewrite Hl, Hi.
    + now rewrite assoc_replace_same.
    + now rewrite assoc_app_new.
  - destruct (has_key k props) eqn:E; cbn.
    + now rewrite assoc_replace_same.
    + destruct (has_key k hidden) eqn:E'; cbn.
      * rewrite (has_key_assoc_none _ _ E). now rewrite assoc_replace_same.
      * now rewrite assoc_app_new.
Qed.

(** Reading another key after an assignment. *)
Lemma get_set_other (v : value) (k k' : string) (x : value) :
  instanceof_Object v = true ->
  index_of_key k = None ->
  k <> k' ->
  get_prop (set_prop v k x) k' = get_prop v k'.
Proof.
  unfold set_prop.
  destruct v as [| | | | | elems props | cls hidden props]; try discriminate;
    intros _ Hi N; cbn.
  - rewrite Hi. destruct (has_key k props) eqn:E; cbn.
    + now rewrite assoc_replace_other.
    + now rewrite assoc_app_other.
  - destruct (has_key k props) eqn:E; cbn.
    + now rewrite assoc_replace_other.
    + destruct (has_key k hidden) eqn:E'; cbn.
      * now rewrite assoc_replace_other.
      * now rewrite assoc_app_other.
Qed.

(** An object or an array always serialises, to a plain object or an
    array. *)
Lemma json_value_object (v : value) :
  instanceof_Object v = true ->
  exists j, json_value v = Some j /\ instanceof_Object j = true.
Proof.
  destruct v as [| | | | | elems props | cls hidden props]; try discriminate; intros _.
  - cbn. eauto.
  - destruct cls; cbn; eauto.
Qed.

Ltac step_assignment :=
  match goal with
  | |- context [SetProp ?v ?k ?x] =>
      let Hs := fresh "Hs" in
      let Ho := fresh "Ho" in
      destruct (SetProp_object v k x) as [Hs Ho];
      [assumption | rewrite Hs; clear Hs]
  end.

(** The callback on an error object, in closed form. *)
Lemma createServiceCallback_run (err data j rd : value) (n : number) (r : Response) :
  instanceof_Object err = true ->
  json_value err = Some j ->
  instanceof_Object j = true ->
  instanceof_Object rd = true ->
  (forall s : Response,
      (if ToBoolean data then lift (JSON_roundtrip data) else ret (obj [])) s
      = (Normal rd, s)) ->
  parseInt_any (get_prop err "code") = Normal n ->
  createServiceCallback err data r
  = (Normal tt, {| statusCode := error_status err;
                   sent := sent r ++ [set_prop rd "err" (backfilled err j n)] |}).
Proof.
  intros He Hj Hjo Hrd Hdata Hn.
  assert (ToBoolean err = true) as Ht by (destruct err; try discriminate; reflexivity).
  unfold createServiceCallback, bind. rewrite Hdata. cbn [set_statusCode].
  rewrite Ht. unfold lift, JSON_roundtrip. rewrite Hj.
  rewrite (Get_object j) by assumption.
  rewrite !(Get_object err) by assumption. rewrite Hn.
  unfold backfilled, error_status, ret.
  destruct (is_nullish (get_prop j "message")).
  - step_assignment. rewrite Get_object by assumption.
    destruct (is_nullish (get_prop (set_prop j "message" (get_prop err "message")) "code")).
    + step_assignment.
      destruct (lodash_isNumber (get_prop err "httpCode")
                && negb (lodash_isNaN (get_prop err "httpCode")));
        cbn [set_statusCode]; step_assignment; reflexivity.
    + destruct (lodash_isNumber (get_prop err "httpCode")
                && negb (lodash_isNaN (get_prop err "httpCode")));
        cbn [set_statusCode]; step_assignment; reflexivity.
  - rewrite Get_object by assumption.
    destruct (is_nullish (get_prop j "code")).
    + step_assignment.
      destruct (lodash_isNumber (get_prop err "httpCode")
                && negb (lodash_isNaN (get_prop err "httpCode")));
        cbn [set_statusCode]; step_assignment; reflexivity.
    + destruct (lodash_isNumber (get_prop err "httpCode")
                && negb (lodash_isNaN (get_prop err "httpCode")));
        cbn [set_statusCode]; step_assignment; reflexivity.
Qed.

(** The response body the callback starts from: [{}] for absent data,
    the serialised data otherwise. *)
Lemma response_data_object (data : value) :
  ToBoolean data = false \/ instanceof_Object data = true ->
  exists rd,
    instanceof_Object rd = true
    /\ forall s : Response,
        (if ToBoolean data then lift (JSON_roundtrip data) else ret (obj [])) s
        = (Normal rd, s).
Proof.
  intros [H | H].
  - rewrite H. exists (obj []). split; reflexivity.
  - destruct (json_value_object data H) as [rd [Hrd Ho]].
    exists rd. split; [assumption |]. intro s.
    assert (ToBoolean data = true) as -> by (destruct data; try discriminate; reflexivity).
    unfold lift, JSON_roundtrip. now rewrite Hrd.
Qed.

Lemma backfilled_message (err j : value) (n : number) :
  instanceof_Object j = true ->
  get_prop (backfilled err j n) "message"
  = if is_nullish (get_prop j "message") then get_prop err "message"
    else get_prop j "message".
Proof.
  intro Hj. unfold backfilled.
  destruct (is_nullish (get_prop j "message")) eqn:Em.
  - destruct (SetProp_object j "message" (get_prop err "message") Hj) as [_ Ho].
    destruct (is_nullish (get_prop (set_prop j "message" (get_prop err "message")) "code")).
    + rewrite get_set_other by (assumption || reflexivity || discriminate).
      now apply get_set_same.
    + now apply get_set_same.
  - destruct (is_nullish (get_prop j "code")).
    + now rewrite get_set_other by (assumption || reflexivity || discriminate).
    + reflexivity.
Qed.

Lemma backfilled_code (err j : value) (n : number) :
  instanceof_Object j = true ->
  get_prop (backfilled err j n) "code"
  = if is_nullish (get_prop j "code") then VNum n else get_prop j "code".
Proof.
  intro Hj. unfold backfilled.
  destruct (is_nullish (get_prop j "message")) eqn:Em.
  - destruct (SetProp_object j "message" (get_prop err "message") Hj) as [_ Ho].
    rewrite (get_set_other j "message" "code") by (assumption || reflexivity || discriminate).
    destruct (is_nullish (get_prop j "code")) eqn:Ec.
    + now apply get_set_same.
    + now rewrite get_set_other by (assumption || reflexivity || discriminate).
  - destruct (is_nullish (get_prop j "code")) eqn:Ec.
    + now apply get_set_same.
    + reflexivity.
Qed.

Lemma backfilled_other (err j : value) (n : number) (k : string) :
  instanceof_Object j = true ->
  k <> "message" -> k <> "code" ->
  get_prop (backfilled err j n) k = get_prop j k.
Proof.
  intros Hj Nm Nc. unfold backfilled.
  destruct (is_nullish (get_prop j "message")) eqn:Em.
  - destruct (SetProp_object j "message" (get_prop err "message") Hj) as [_ Ho].
    destruct (is_nullish (get_prop (set_prop j "message" (get_prop err "message")) "code")).
    + rewrite get_set_other by (assumption || reflexivity || congruence).
      now rewrite get_set_other by (assumption || reflexivity || congruence).
    + now rewrite get_set_other by (assumption || reflexivity || congruence).
  - destruct (is_nullish (get_prop j "code")).
    + now rewrite get_set_other by (assumption || reflexivity || congruence).
    + reflexivity.
Qed.

Lemma error_status_cases (err : value) :
  error_status err
  = match get_prop err "httpCode" with
    | VNum NaN => VNum (Fin 500)
    | VNum c => VNum c
    | _ => VNum (Fin 500)
    end.
Proof.
  unfold error_status.
  destruct (get_prop err "httpCode") as [| | | [z| | |] | | |]; reflexivity.
Qed.

(** C1, as documented, fails: with [httpCode] infinite the callback
    sets the status to Infinity, where the documented status for a
    [httpCode] that is not a finite number is 500. *)
Lemma createServiceCallback_infinite_httpCode :
  statusCode (snd (createServiceCallback (obj [("httpCode", VNum PosInf)])
                                         VUndefined new_response))
  = VNum PosInf
  /\ documented_status (obj [("httpCode", VNum PosInf)]) = VNum (Fin 500).
Proof. split; reflexivity. Qed.

(** An error that is a truthy primitive (a string other than the
    empty one, a number other than 0 and NaN, or [true]) makes the
    callback throw a [TypeError] after it has set status 200 and before
    it sends anything, whatever data comes with it that is falsy or
    serialises: the serialised error is a primitive again, or [null]
    for an infinity, and [message] cannot be assigned to the one nor
    read from the other. *)
Theorem createServiceCallback_primitive_error :
  forall (err data : value) (r : Response),
    is_primitive err = true ->
    ToBoolean err = true ->
    (if ToBoolean data then json_value data <> None else True) ->
    exists msg : string,
      createServiceCallback err data r
      = (Throw (TypeError msg), {| statusCode := VNum (Fin 200); sent := sent r |}).
Proof.
  intros err data r Hp Ht Hd. unfold createServiceCallback, bind.
  assert (exists resData,
             (if ToBoolean data then lift (JSON_roundtrip data) else ret (obj [])) r
             = (Normal resData, r)) as [resData ->].
  { destruct (ToBoolean data); [| now exists (obj [])].
    unfold lift, JSON_roundtrip. destruct (json_value data) as [j|]; [| contradiction].
    now exists j. }
  rewrite Ht.
  destruct err as [| | [|] | [z| | |] | s | |]; try discriminate; cbn; eauto.
Qed.

Lemma createServiceCallback_primitive_error_witness :
  exists msg : string,
    createServiceCallback (VStr "oops") (obj [("a", VNum (Fin 1))]) new_response
    = (Throw (TypeError msg),
       {| statusCode := VNum (Fin 200); sent := sent new_response |}).
Proof.
  apply (createServiceCallback_primitive_error
           (VStr "oops") (obj [("a", VNum (Fin 1))]) new_response).
  - reflexivity.
  - reflexivity.
  - discriminate.
Defined.

(** C1, amended: for every error value that is an object or an array
    and whose [code] converts to a string (so that [parseInt] of it is a
    number [n]), called with no data or with data that is an object, the
    callback sends exactly one envelope and does not throw; the [err]
    field of the envelope is the serialised error with [message] taken
    from the error and [code] set to [n] where the serialised error has
    none (absent or null), and with every other field unchanged; the
    status is the error's [httpCode] when that is a number other than
    NaN, the infinities included, and 500 otherwise.  For the error
    [{httpCode: 404, message: "nf"}] the status is 404 and the message of
    the [err] field is ["nf"]. *)
Theorem createServiceCallback_error_object :
  (forall (err data : value) (r : Response) (n : number),
      instanceof_Object err = true ->
      ToBoolean data = false \/ instanceof_Object data = true ->
      parseInt_any (get_prop err "code") = Normal n ->
      exists j errObj envelope,
        json_value err = Some j
        /\ createServiceCallback err data r
           = (Normal tt,
              {| statusCode := match get_prop err "httpCode" with
                               | VNum NaN => VNum (Fin 500)
                               | VNum c => VNum c
                               | _ => VNum (Fin 500)
                               end;
                 sent := sent r ++ [envelope] |})
        /\ get_prop envelope "err" = errObj
        /\ get_prop errObj "message"
           = (if is_nullish (get_prop j "message") then get_prop err "message"
              else get_prop j "message")
        /\ get_prop errObj "code"
           = (if is_nullish (get_prop j "code") then VNum n else get_prop j "code")
        /\ forall k : string,
            k <> "message" -> k <> "code" -> get_prop errObj k = get_prop j k)
  /\ (exists envelope,
         createServiceCallback (obj [("httpCode", VNum (Fin 404)); ("message", VStr "nf")])
                               VUndefined new_response
         = (Normal tt, {| statusCode := VNum (Fin 404); sent := [envelope] |})
         /\ get_prop (get_prop envelope "err") "message" = VStr "nf").
Proof.
  split.
  - intros err data r n He Hd Hn.
    destruct (json_value_object err He) as [j [Hj Hjo]].
    destruct (response_data_object data Hd) as [rd [Hrd Hrun]].
    exists j, (backfilled err j n), (set_prop rd "err" (backfilled err j n)).
    split; [assumption |].
    split; [rewrite <- error_status_cases;
            now apply createServiceCallback_run |].
    split; [now apply get_set_same |].
    split; [now apply backfilled_message |].
    split; [now apply backfilled_code |].
    intros k Nm Nc. now apply backfilled_other.
  - eexists. split; reflexivity.
Qed.

Lemma createServiceCallback_error_object_witness :
  exists j errObj envelope,
    json_value (VObj ClsError [("message", VStr "boom")] [("httpCode", VNum (Fin 503))])
    = Some j
    /\ createServiceCallback
         (VObj ClsError [("message", VStr "boom")] [("httpCode", VNum (Fin 503))])
         VUndefined new_response
       = (Normal tt,
          {| statusCode := VNum (Fin 503); sent := sent new_response ++ [envelope] |})
    /\ get_prop envelope "err" = errObj
    /\ get_prop errObj "message" = VStr "boom"
    /\ get_prop errObj "code" = VNum NaN
    /\ forall k : string,
        k <> "message" -> k <> "code" -> get_prop errObj k = get_prop j k.
Proof.
  destruct (proj1 createServiceCallback_error_object
              (VObj ClsError [("message", VStr "boom")] [("httpCode", VNum (Fin 503))])
              VUndefined new_response NaN)
    as (j & errObj & envelope & Hj & Hrun & He & Hm & Hc & Hk).
  - reflexivity.
  - left; reflexivity.
  - reflexivity.
  - exists j, errObj, envelope.
    cbn in Hj. injection Hj as <-. cbn in Hrun, Hm, Hc.
    repeat split; assumption.
Defined.

(** ** Rounding to a double *)

Lemma round_half_even_error (n d : Z) :
  0 < d -> Z.abs (2 * (round_half_even n d * d - n)) <= d.
Proof.
  intro Hd. unfold round_half_even.
  pose proof (Z.div_mod n d ltac:(lia)) as Hn.
  pose proof (Z.mod_pos_bound n d Hd) as Hr.
  set (q := n / d) in *. set (r := n mod d) in *.
  destruct (Z.ltb_spec (2 * r) d); [lia |].
  destruct (Z.ltb_spec d (2 * r)); [lia |].
  destruct (Z.even q); lia.
Qed.

(** An integer below 2^53 in magnitude is a double. *)
Lemma to_double_exact (z : Z) : Z.abs z < 2 ^ 53 -> to_double z = Fin z.
Proof.
  intro H. unfold to_double.
  destruct (Z.ltb_spec (Z.abs z) (2 ^ 53)); [reflexivity | lia].
Qed.

(** An integer below 2^k in magnitude rounds to a double at most
    2^(k-54) away. *)
Lemma to_double_near (z k : Z) :
  53 <= k <= 1000 ->
  Z.abs z < 2 ^ k ->
  exists z', to_double z = Fin z' /\ 2 * Z.abs (z' - z) <= 2 ^ (k - 53).
Proof.
  intros Hk Hz. unfold to_double.
  assert (0 < 2 ^ (k - 53)) as Hpos by (apply Z.pow_pos_nonneg; lia).
  destruct (Z.ltb_spec (Z.abs z) (2 ^ 53)) as [Hs | Hb].
  - exists z. split; [reflexivity |]. rewrite Z.sub_diag. cbn. lia.
  - set (a := Z.abs z) in *.
    assert (0 < a) as Ha by lia.
    assert (53 <= Z.log2 a) as Hlo by (apply Z.log2_le_pow2; assumption).
    assert (Z.log2 a < k) as Hhi by (apply Z.log2_lt_pow2; assumption).
    set (e := Z.log2 a - 52) in *.
    assert (0 < 2 ^ e) as Hd by (apply Z.pow_pos_nonneg; lia).
    assert (2 ^ e <= 2 ^ (k - 53)) as Hde by (apply Z.pow_le_mono_r; lia).
    pose proof (round_half_even_error a (2 ^ e) Hd) as Herr.
    set (m := round_half_even a (2 ^ e)) in *.
    assert (2 ^ (k - 53) <= 2 ^ k) as Hkk by (apply Z.pow_le_mono_r; lia).
    assert (2 ^ (k + 1) <= 2 ^ 1024) as Hbig by (apply Z.pow_le_mono_r; lia).
    assert (2 ^ (k + 1) = 2 * 2 ^ k) as Hsucc
        by (rewrite Z.pow_add_r by lia; rewrite Z.pow_1_r; lia).
    set (inf := 2 ^ 1024) in *.
    destruct (Z.leb_spec inf (m * 2 ^ e)) as [Hov | _]; [lia |].
    exists (Z.sgn z * (m * 2 ^ e)). split; [reflexivity |].
    subst a. destruct (Z.sgn_spec z) as [[Hz0 ->] | [[Hz0 ->] | [Hz0 ->]]]; lia.
Qed.

(** The quotient of a tick count by 10000, as a double: a mantissa [M]
    and an exponent [-k] below zero, within half a unit of the last
    place of the exact quotient. *)
Lemma round_div_ticks (x : Z) :
  x <> 0 ->
  Z.abs x < 2 ^ 62 ->
  exists M k,
    round_div x 10000 = {| mant := M; expo := - k |}
    /\ 1 <= k
    /\ Z.abs (2 * (M * 10000 - x * 2 ^ k)) <= 10000.
Proof.
  intros Hx Hb. unfold round_div.
  destruct (Z.eqb_spec x 0) as [|_]; [contradiction |].
  change (Z.abs 10000) with 10000. change (Z.sgn 10000) with 1.
  set (a := Z.abs x) in *.
  assert (0 < a) as Ha by lia.
  assert (Z.log2 a < 62) as Hlog by (apply Z.log2_lt_pow2; assumption).
  assert (binade a 10000 <= 48) as Hbin.
  { unfold binade. change (Z.log2 10000) with 13.
    destruct (if 0 <=? Z.log2 a - 13
              then 10000 * 2 ^ (Z.log2 a - 13) <=? a
              else 10000 <=? a * 2 ^ (- (Z.log2 a - 13))); lia. }
  unfold round_pos. cbn [mant expo].
  set (e := Z.max (binade a 10000 - 52) (- 1074)) in *.
  assert (e <= -4) as He by lia.
  destruct (Z.leb_spec 0 e) as [|_]; [lia |].
  exists (Z.sgn x * 1 * round_half_even (a * 2 ^ (- e)) 10000), (- e).
  rewrite Z.opp_involutive. split; [reflexivity |]. split; [lia |].
  pose proof (round_half_even_error (a * 2 ^ (- e)) 10000 ltac:(lia)) as Herr.
  set (m := round_half_even (a * 2 ^ (- e)) 10000) in *.
  set (P := 2 ^ (- e)) in *.
  subst a. destruct (Z.sgn_spec x) as [[Hz0 ->] | [[Hz0 ->] | [Hz0 ->]]]; lia.
Qed.

(** The floor of such a quotient is within one of the millisecond
    count [ms], when the ticks [x] are within 192 of a tick count [y]
    that lies in millisecond [ms]. *)
Lemma floor_within (M P x y ms r : Z) :
  0 < P ->
  Z.abs (2 * (M * 10000 - x * P)) <= 10000 ->
  Z.abs (x - y) <= 192 ->
  y = 10000 * ms + r ->
  0 <= r < 10000 ->
  ms - 1 <= M / P <= ms + 1.
Proof.
  intros HP HM Hx Hy Hr.
  pose proof (Z.mul_div_le M P HP) as H1.
  pose proof (Z.mul_succ_div_gt M P HP) as H2.
  set (F := M / P) in *.
  assert (ms - 1 <= F \/ F <= ms - 2) as [? | Hc] by lia.
  - assert (F <= ms + 1 \/ ms + 2 <= F) as [? | Hc] by lia; [lia |].
    exfalso. assert (P * (ms + 2) <= P * F) by nia. nia.
  - exfalso. assert (P * F <= P * (ms - 2)) by nia. nia.
Qed.

(** ** Hexadecimal strings *)

Lemma hex_digit_not_separator (c : ascii) :
  is_hex_digit c = true ->
  is_whitespace c = false /\ Ascii.eqb "-" c = false /\ Ascii.eqb "x" c = false
  /\ Ascii.eqb "X" c = false.
Proof.
  destruct c as [[|] [|] [|] [|] [|] [|] [|] [|]]; cbn; intro H;
    try discriminate H; repeat split.
Qed.

Lemma all_hex_no_hyphen (s : string) : all_hex s = true -> has_char "-" s = false.
Proof.
  induction s as [|c s IH]; cbn [all_hex has_char]; [reflexivity |].
  intro H. apply andb_true_iff in H as [Hc Hs].
  destruct (hex_digit_not_separator c Hc) as (_ & -> & _). cbn [orb]. auto.
Qed.

Lemma all_hex_no_prefix_x (s : string) :
  all_hex s = true -> prefix "x" s = false /\ prefix "X" s = false.
Proof.
  destruct s as [|c s]; [split; reflexivity |].
  cbn [all_hex]. intro H. apply andb_true_iff in H as [Hc _].
  rewrite !prefix_char.
  destruct (hex_digit_not_separator c Hc) as (_ & _ & -> & ->). split; reflexivity.
Qed.

(** On a string that starts with a hexadecimal digit, [parseInt] with
    radix 16 finds no white space, sign or [0x] prefix to skip. *)
Lemma parseInt_hex_head (c : ascii) (r : string) :
  is_hex_digit c = true ->
  all_hex r = true ->
  parseInt (String c r) 16
  = match parse_digits 16 None (String c r) with
    | None => NaN
    | Some v => to_double v
    end.
Proof.
  intros Hc Hr. unfold parseInt.
  destruct (all_hex_no_prefix_x r Hr) as [Hx HX].
  destruct c as [[|] [|] [|] [|] [|] [|] [|] [|]]; try discriminate Hc;
    cbn -[to_double Z.mul parse_digits];
    rewrite ?Hx, ?HX; cbn [orb];
    (destruct (parse_digits _ _ _); [rewrite ?Z.mul_1_l |]; reflexivity).
Qed.

Lemma digit_value_range (c : ascii) (d : Z) :
  digit_value c = Some d -> 0 <= d.
Proof.
  unfold digit_value. intro H.
  destruct ((48 <=? char_code c) && (char_code c <=? 57)) eqn:E1;
    [| destruct ((97 <=? char_code c) && (char_code c <=? 122)) eqn:E2;
       [| destruct ((65 <=? char_code c) && (char_code c <=? 90)) eqn:E3;
          [| discriminate H]]];
    injection H as <-;
    match goal with
    | E : (_ && _) = true |- _ => apply andb_true_iff in E as [E _]; apply Z.leb_le in E
    end; lia.
Qed.

Lemma hex_digit_value (c : ascii) :
  is_hex_digit c = true -> exists d, digit_value c = Some d /\ 0 <= d < 16.
Proof.
  unfold is_hex_digit. destruct (digit_value c) as [d|] eqn:E; [| discriminate].
  intro H. exists d. split; [reflexivity |].
  apply Z.ltb_lt in H. pose proof (digit_value_range c d E). lia.
Qed.

Lemma parse_digits_hex (s : string) (acc : Z) :
  all_hex s = true ->
  parse_digits 16 (Some acc) s = Some (digits_value 16 acc s).
Proof.
  revert acc; induction s as [|c s IH]; intros acc H; cbn in *; [reflexivity |].
  apply andb_true_iff in H as [Hc Hs].
  destruct (hex_digit_value c Hc) as (d & -> & Hd).
  destruct (Z.ltb_spec d 16); [| lia]. now apply IH.
Qed.

Lemma parseInt_hex (s : string) :
  all_hex s = true -> s <> "" -> parseInt s 16 = to_double (hex_value s).
Proof.
  destruct s as [|c r]; [congruence |]. intros H _.
  pose proof H as H'. cbn [all_hex] in H'. apply andb_true_iff in H' as [Hc Hr].
  rewrite parseInt_hex_head by assumption.
  unfold hex_value. cbn [parse_digits digits_value].
  destruct (hex_digit_value c Hc) as (d & -> & Hd).
  destruct (Z.ltb_spec d 16); [| lia].
  rewrite parse_digits_hex by assumption. reflexivity.
Qed.

Lemma digits_value_app (R acc : Z) (a b : string) :
  digits_value R acc (a ++ b) = digits_value R (digits_value R acc a) b.
Proof.
  revert acc; induction a as [|c a IH]; intro acc; cbn; [reflexivity | apply IH].
Qed.

Lemma digits_value_shift (R acc : Z) (s : string) :
  digits_value R acc s
  = acc * R ^ Z.of_nat (String.length s) + digits_value R 0 s.
Proof.
  revert acc; induction s as [|c s IH]; intro acc.
  - cbn. lia.
  - cbn [digits_value String.length]. rewrite IH.
    rewrite (IH (0 * R + _)).
    rewrite Nat2Z.inj_succ, Z.pow_succ_r by lia. ring.
Qed.

Lemma hex_value_app (a b : string) :
  hex_value (a ++ b) = hex_value a * 16 ^ Z.of_nat (String.length b) + hex_value b.
Proof.
  unfold hex_value. rewrite digits_value_app. apply digits_value_shift.
Qed.

Lemma hex_value_range (s : string) :
  all_hex s = true -> 0 <= hex_value s < 16 ^ Z.of_nat (String.length s).
Proof.
  unfold hex_value. induction s as [|c s IH]; intro H.
  - cbn. lia.
  - cbn [all_hex] in H. apply andb_true_iff in H as [Hc Hs].
    cbn [digits_value String.length]. rewrite digits_value_shift.
    destruct (hex_digit_value c Hc) as (d & -> & Hd).
    specialize (IH Hs). rewrite Nat2Z.inj_succ, Z.pow_succ_r by lia.
    set (p := 16 ^ Z.of_nat (String.length s)) in *. nia.
Qed.

Lemma all_hex_app (a b : string) :
  all_hex a = true -> all_hex b = true -> all_hex (a ++ b) = true.
Proof.
  induction a as [|c a IH]; cbn; [auto |].
  intros H Hb. apply andb_true_iff in H as [Hc Ha]. rewrite Hc. cbn. auto.
Qed.

(** ** UUID timestamps *)

Lemma hex_group_fields (n : nat) (s : string) :
  hex_group n s = true -> String.length s = n /\ all_hex s = true.
Proof.
  unfold hex_group. intro H. apply andb_true_iff in H as [Hl Hh].
  apply Nat.eqb_eq in Hl. auto.
Qed.

Lemma canonical_v1_fields (u : uuid_fields) :
  canonical_v1 u = true ->
  (String.length (time_low u) = 8%nat /\ all_hex (time_low u) = true)
  /\ (String.length (time_mid u) = 4%nat /\ all_hex (time_mid u) = true)
  /\ (String.length (time_hi_and_version u) = 4%nat
      /\ all_hex (time_hi_and_version u) = true)
  /\ all_hex (clock_seq u) = true
  /\ all_hex (node u) = true.
Proof.
  unfold canonical_v1. intro H.
  repeat (apply andb_true_iff in H as [H ?]).
  repeat match goal with
         | G : hex_group _ _ = true |- _ => apply hex_group_fields in G
         end.
  intuition; now apply Nat.eqb_eq.
Qed.

Lemma split_uuid_string (u : uuid_fields) :
  canonical_v1 u = true ->
  split (uuid_string u) "-"
  = [time_low u; time_mid u; time_hi_and_version u; clock_seq u; node u].
Proof.
  intro H. destruct (canonical_v1_fields u H) as ([_ H0] & [_ H1] & [_ H2] & H3 & H4).
  unfold split, uuid_string.
  assert (forall x, ("-" ++ x)%string = String "-"%char x) as E by reflexivity.
  rewrite !E.
  rewrite !split_from_char_first by (apply all_hex_no_hyphen; assumption).
  rewrite split_from_char_free by (apply all_hex_no_hyphen; assumption).
  reflexivity.
Qed.

Lemma substring1_hex (s : string) :
  String.length s = 4%nat -> all_hex s = true ->
  String.length (substring1 s) = 3%nat /\ all_hex (substring1 s) = true.
Proof.
  destruct s as [|c s]; [discriminate |]. cbn. intros Hl H.
  apply andb_true_iff in H as [_ Hs]. split; [congruence | assumption].
Qed.

(** The value [getTimeIntFromUUID] returns on a canonical version-1
    UUID, and the range of the timestamp. *)
Lemma getTimeIntFromUUID_canonical (u : uuid_fields) :
  canonical_v1 u = true ->
  getTimeIntFromUUID (uuid_string u) = Normal (to_double (timestamp60 u))
  /\ 0 <= timestamp60 u < 2 ^ 60.
Proof.
  intro H. pose proof (split_uuid_string u H) as Hsplit.
  destruct (canonical_v1_fields u H) as ([L0 H0] & [L1 H1] & [L2 H2] & _ & _).
  destruct (substring1_hex _ L2 H2) as [L3 H3].
  pose proof (hex_value_range _ H0) as R0.
  pose proof (hex_value_range _ H1) as R1.
  pose proof (hex_value_range _ H3) as R3.
  rewrite L0 in R0. rewrite L1 in R1. rewrite L3 in R3.
  change (16 ^ Z.of_nat 8) with (2 ^ 32) in R0.
  change (16 ^ Z.of_nat 4) with (2 ^ 16) in R1.
  change (16 ^ Z.of_nat 3) with (2 ^ 12) in R3.
  split.
  - unfold getTimeIntFromUUID. rewrite Hsplit.
    cbn [nth_error nth String.concat append].
    rewrite parseInt_hex.
    + rewrite !hex_value_app, length_append, L0, L1.
      unfold timestamp60. f_equal. f_equal.
      change (16 ^ Z.of_nat (4 + 8)) with (2 ^ 48).
      change (16 ^ Z.of_nat 8) with (2 ^ 32). lia.
    + repeat apply all_hex_app; auto.
    + destruct (substring1 (time_hi_and_version u)); [discriminate L3 | discriminate].
  - unfold timestamp60.
    change (2 ^ 48) with 281474976710656. change (2 ^ 32) with 4294967296 in *.
    change (2 ^ 16) with 65536 in *. change (2 ^ 12) with 4096 in *.
    change (2 ^ 60) with 1152921504606846976. lia.
Qed.

(** C4, as documented, fails: the timestamp of the canonical UUID
    [00000001-0000-1100-8000-000000000000] is 2^56 + 1, which no double
    holds; [getTimeIntFromUUID] returns 2^56. *)
Lemma getTimeIntFromUUID_not_exact :
  canonical_v1 uuid_odd_timestamp = true
  /\ uuid_string uuid_odd_timestamp = "00000001-0000-1100-8000-000000000000"
  /\ timestamp60 uuid_odd_timestamp = 72057594037927937
  /\ getTimeIntFromUUID (uuid_string uuid_odd_timestamp)
     = Normal (Fin 72057594037927936).
Proof. vm_compute. repeat split. Qed.

(** C4, amended: for every canonical hyphenated version-1 UUID string,
    [getTimeIntFromUUID] returns the double nearest to the 60-bit
    timestamp that the time-high group without its version digit, the
    time-mid group and the time-low group write in hexadecimal: the
    timestamp itself when it is below 2^53, and a number within 64 ticks
    of it in general. *)
Theorem getTimeIntFromUUID_nearest_double :
  forall u : uuid_fields,
    canonical_v1 u = true ->
    0 <= timestamp60 u < 2 ^ 60
    /\ getTimeIntFromUUID (uuid_string u) = Normal (to_double (timestamp60 u))
    /\ (timestamp60 u < 2 ^ 53 ->
        getTimeIntFromUUID (uuid_string u) = Normal (Fin (timestamp60 u)))
    /\ exists z,
        getTimeIntFromUUID (uuid_string u) = Normal (Fin z)
        /\ Z.abs (z - timestamp60 u) <= 64.
Proof.
  intros u H. destruct (getTimeIntFromUUID_canonical u H) as [Hrun Hrange].
  split; [assumption |]. split; [assumption |]. split.
  - intro Hsmall. rewrite Hrun. f_equal. apply to_double_exact. lia.
  - destruct (to_double_near (timestamp60 u) 60) as (z & Hz & Herr); [lia | lia |].
    exists z. rewrite Hrun, Hz. split; [reflexivity |].
    change (2 ^ (60 - 53)) with 128 in Herr. lia.
Qed.

Lemma getTimeIntFromUUID_nearest_double_witness :
  0 <= timestamp60 uuid_2017 < 2 ^ 60
  /\ getTimeIntFromUUID (uuid_string uuid_2017)
     = Normal (to_double (timestamp60 uuid_2017))
  /\ (timestamp60 uuid_2017 < 2 ^ 53 ->
      getTimeIntFromUUID (uuid_string uuid_2017) = Normal (Fin (timestamp60 uuid_2017)))
  /\ exists z,
      getTimeIntFromUUID (uuid_string uuid_2017) = Normal (Fin z)
      /\ Z.abs (z - timestamp60 uuid_2017) <= 64.
Proof. apply (getTimeIntFromUUID_nearest_double uuid_2017). reflexivity. Defined.

(** C3: for every canonical version-1 UUID string whose timestamp was
    made from the date [ms] (milliseconds since 1970-01-01) and [r]
    further ticks within that millisecond, [getDateFromUUID] returns a
    valid date within 1ms of [ms]; the date is built from the
    millisecond count obtained by subtracting 122192928000000000 from
    the extracted timestamp, dividing by 10000 and taking the floor. *)
Theorem getDateFromUUID_within_1ms :
  forall (u : uuid_fields) (ms r : Z),
    canonical_v1 u = true ->
    timestamp60 u = UUID_EPOCH_OFFSET + 10000 * ms + r ->
    0 <= r < 10000 ->
    exists d,
      getDateFromUUID (uuid_string u) = Normal {| time_value := Fin d |}
      /\ Z.abs (d - ms) <= 1
      /\ Normal (Fin d)
         = match getTimeIntFromUUID (uuid_string u) with
           | Normal t =>
               Normal (Math_floor (num_div (num_sub t (Fin 122192928000000000))
                                           (Fin 10000)))
           | Throw e => Throw e
           end.
Proof.
  intros u ms r H Hts Hr.
  destruct (getTimeIntFromUUID_canonical u H) as [Hrun Hrange].
  unfold UUID_EPOCH_OFFSET in Hts.
  change (2 ^ 60) with 1152921504606846976 in Hrange.
  destruct (to_double_near (timestamp60 u) 60) as (t' & Ht' & Herr1);
    [lia | change (2 ^ 60) with 1152921504606846976; lia |].
  change (2 ^ (60 - 53)) with 128 in Herr1.
  destruct (to_double_near (t' - 122192928000000000) 61) as (x & Hx & Herr2);
    [lia | change (2 ^ 61) with 2305843009213693952; lia |].
  change (2 ^ (61 - 53)) with 256 in Herr2.
  unfold getDateFromUUID. rewrite Hrun, Ht'. cbn [num_sub]. rewrite Hx.
  cbn [num_div]. change (10000 =? 0) with false. cbv iota.
  set (y := 10000 * ms + r).
  assert (Z.abs (x - y) <= 192) as Hxy by (subst y; lia).
  destruct (Z.eq_dec x 0) as [-> | Hx0].
  - exists 0. cbn. split; [reflexivity |]. split; [subst y; lia | reflexivity].
  - destruct (round_div_ticks x Hx0) as (M & k & Hq & Hk & Hm).
    { change (2 ^ 62) with 4611686018427387904. lia. }
    rewrite Hq. unfold Math_floor. cbn [expo mant].
    destruct (Z.leb_spec 0 (- k)) as [|_]; [lia |].
    rewrite Z.opp_involutive.
    assert (0 < 2 ^ k) as HP by (apply Z.pow_pos_nonneg; lia).
    pose proof (floor_within M (2 ^ k) x y ms r HP Hm Hxy eq_refl Hr) as HF.
    exists (M / 2 ^ k). unfold new_Date.
    destruct (Z.leb_spec (Z.abs (M / 2 ^ k)) 8640000000000000) as [_ | Hbig];
      [| subst y; lia].
    split; [reflexivity |]. split; [lia | reflexivity].
Qed.

Lemma getDateFromUUID_within_1ms_witness :
  exists d,
    getDateFromUUID (uuid_string uuid_2017) = Normal {| time_value := Fin d |}
    /\ Z.abs (d - 1513823309565) <= 1
    /\ Normal (Fin d)
       = match getTimeIntFromUUID (uuid_string uuid_2017) with
         | Normal t =>
             Normal (Math_floor (num_div (num_sub t (Fin 122192928000000000))
                                         (Fin 10000)))
         | Throw e => Throw e
         end.
Proof.
  apply (getDateFromUUID_within_1ms uuid_2017 1513823309565 2308).
  - reflexivity.
  - reflexivity.
  - lia.
Defined.

(** ** [createServiceCallback] without an error *)

(** Called without an error, the callback sets status 200 and sends the
    serialised data, or [{}] when the data is absent (or falsy); with
    [(null, {a: 1})] it sends [{a: 1}]. *)
Lemma createServiceCallback_success :
  (forall (data : value) (r : Response),
      createServiceCallback VNull data r
      = (Normal tt,
         {| statusCode := VNum (Fin 200);
            sent := sent r ++ [if ToBoolean data
                               then match json_value data with
                                    | Some j => j
                                    | None => obj []
                                    end
                               else obj []] |}))
  /\ createServiceCallback VNull (obj [("a", VNum (Fin 1))]) new_response
     = (Normal tt, {| statusCode := VNum (Fin 200); sent := [obj [("a", VNum (Fin 1))]] |}).
Proof.
  split; [| reflexivity].
  intros data r. unfold createServiceCallback, bind.
  destruct (ToBoolean data) eqn:Et; [| reflexivity].
  unfold lift, JSON_roundtrip.
  destruct (json_value data) as [j|] eqn:Ej; [reflexivity |].
  destruct data as [| | | [z| | |] | | |cls hidden props]; try discriminate.
  destruct cls; discriminate.
Qed.

(** * Further properties *)

(** ** [requireQueries], [validBody], [validQuery], [transformBody] *)

Lemma requireQueries_loop_run (read : PropertyRead) (query : list string)
    (req params : value) (s : MiddlewareState) :
  Get req "query" = Normal params ->
  is_nullish params = false ->
  requireQueries_loop read query req s
  = match find (fun q => is_undefined (read params q)) query with
    | Some q => (Normal true, rejected_400 s (VStr ("Query " ++ q ++ " is missing")))
    | None => (Normal false, s)
    end.
Proof.
  intros Hq Hp. induction query as [|q rest IH]; [reflexivity |].
  cbn [requireQueries_loop find]. unfold bind, lift. rewrite Hq.
  assert (Get_with read params q = Normal (read params q)) as ->
      by (destruct params; try discriminate; reflexivity).
  destruct (is_undefined (read params q)); [reflexivity | exact IH].
Qed.

(** The middleware of [requireQueries], on a request whose [query] is
    not [null] or [undefined], never throws and does exactly one of two
    things: when some required parameter reads as [undefined] it sets
    status 400 and sends one body naming the first such parameter,
    without calling [next]; otherwise it calls [next] once and leaves
    the response alone. *)
Theorem requireQueries_first_missing_or_next :
  forall (read : PropertyRead) (query : list string) (req params : value)
         (s : MiddlewareState),
    Get req "query" = Normal params ->
    is_nullish params = false ->
    requireQueries read query req s
    = (Normal tt,
       match find (fun q => is_undefined (read params q)) query with
       | Some q => rejected_400 s (VStr ("Query " ++ q ++ " is missing"))
       | None => passed_on s
       end).
Proof.
  intros read query req params s Hq Hp. unfold requireQueries, bind.
  rewrite (requireQueries_loop_run read query req params s Hq Hp).
  destruct (find _ query); reflexivity.
Qed.

Lemma requireQueries_first_missing_or_next_witness :
  requireQueries get_prop ["page"; "size"; "sort"]
                 (obj [("query", obj [("page", VStr "1"); ("sort", VNull)])])
                 {| m_resp := new_response; next_calls := 0 |}
  = (Normal tt,
     match find (fun q => is_undefined
                            (get_prop (obj [("page", VStr "1"); ("sort", VNull)]) q))
                ["page"; "size"; "sort"] with
     | Some q => rejected_400 {| m_resp := new_response; next_calls := 0 |}
                              (VStr ("Query " ++ q ++ " is missing"))
     | None => passed_on {| m_resp := new_response; next_calls := 0 |}
     end).
Proof.
  apply (requireQueries_first_missing_or_next
           get_prop ["page"; "size"; "sort"]
           (obj [("query", obj [("page", VStr "1"); ("sort", VNull)])])
           (obj [("page", VStr "1"); ("sort", VNull)])); reflexivity.
Defined.

(** The middleware of [validBody] and of [validQuery], on a request
    object, never throws and does exactly one of two things: when the
    validator accepts it calls [next] once and leaves the response
    alone; when the validator refuses it sets status 400 and sends the
    validator's errors once, without calling [next]. *)
Theorem validBody_validQuery_reject_or_next :
  forall (validator : Validator) (req : value) (s : MiddlewareState),
    is_nullish req = false ->
    validBody validator req s
    = (Normal tt,
       if fst (validator (get_prop req "body")) then passed_on s
       else rejected_400 s (snd (validator (get_prop req "body"))))
    /\ validQuery validator req s
       = (Normal tt,
          if fst (validator (get_prop req "query")) then passed_on s
          else rejected_400 s (snd (validator (get_prop req "query")))).
Proof.
  intros validator req s Hr.
  unfold validBody, validQuery, validate_field, bind, lift.
  assert (forall k, Get req k = Normal (get_prop req k)) as E
      by (intro k; destruct req; try discriminate; reflexivity).
  rewrite !E.
  destruct (validator (get_prop req "body")) as [[|] e1],
           (validator (get_prop req "query")) as [[|] e2]; split; reflexivity.
Qed.

Lemma validBody_validQuery_reject_or_next_witness :
  validBody (fun v => (is_nullish v, VStr "body must be absent"))
            (obj [("body", VNum (Fin 1))]) {| m_resp := new_response; next_calls := 0 |}
  = (Normal tt,
     rejected_400 {| m_resp := new_response; next_calls := 0 |}
                  (VStr "body must be absent"))
  /\ validQuery (fun v => (is_nullish v, VStr "body must be absent"))
                (obj [("body", VNum (Fin 1))]) {| m_resp := new_response; next_calls := 0 |}
     = (Normal tt, passed_on {| m_resp := new_response; next_calls := 0 |}).
Proof.
  apply (validBody_validQuery_reject_or_next
           (fun v => (is_nullish v, VStr "body must be absent"))
           (obj [("body", VNum (Fin 1))])
           {| m_resp := new_response; next_calls := 0 |}).
  reflexivity.
Defined.

(** The middleware of [transformBody] and of [transformQuery] never
    throws and calls [next] exactly once, after the transformation and
    in the state the transformation left, whether the transformation
    returned or threw; what it threw is dropped. *)
Theorem transformBody_always_next :
  forall (transformBySchema : value -> M MiddlewareState unit) (req : value)
         (s : MiddlewareState),
    transformBody transformBySchema req s
    = (Normal tt,
       passed_on (if is_nullish req then s
                  else snd (transformBySchema (get_prop req "body") s)))
    /\ transformQuery transformBySchema req s
       = (Normal tt,
          passed_on (if is_nullish req then s
                     else snd (transformBySchema (get_prop req "query") s))).
Proof.
  intros transformBySchema req s.
  unfold transformBody, transformQuery, transform_field, bind, lift.
  destruct (is_nullish req) eqn:Hn.
  - assert (forall k, exists e, Get req k = Throw e) as E
        by (intro k; destruct req; try discriminate; eexists; reflexivity).
    destruct (E "body") as [e1 ->]. destruct (E "query") as [e2 ->].
    split; reflexivity.
  - assert (forall k, Get req k = Normal (get_prop req k)) as E
        by (intro k; destruct req; try discriminate; reflexivity).
    rewrite !E.
    destruct (transformBySchema (get_prop req "body") s) as [c1 s1].
    destruct (transformBySchema (get_prop req "query") s) as [c2 s2].
    split; reflexivity.
Qed.

(** ** [opt] *)

Lemma get_path_or_undefined_nullish (read : PropertyRead) (t : value)
    (names : list string) :
  is_nullish t = true -> get_path_or_undefined read t names = VUndefined \/ names = [].
Proof.
  intro H. destruct names as [|n rest]; [auto |]. left.
  unfold get_path_or_undefined. destruct t; try discriminate; reflexivity.
Qed.

Lemma opt_path_proxy (read : PropertyRead) (names : list string) (t : value) :
  Forall (fun n => n <> "_") names ->
  opt_path read t names = Normal (AtProxy (opt (get_path_or_undefined read t names))).
Proof.
  unfold opt_path. revert t.
  induction names as [|n rest IH]; intros t H; [reflexivity |].
  inversion H as [|? ? Hn Hrest]; subst.
  cbn [fold_left navigate]. unfold opt_get. cbn [some].
  destruct (String.eqb_spec n "_") as [|_]; [contradiction |].
  destruct (is_nullish t) eqn:Et.
  - rewrite (IH VUndefined Hrest). do 3 f_equal.
    destruct t; try discriminate;
      destruct rest; reflexivity.
  - rewrite (IH (read t n) Hrest). do 3 f_equal.
    unfold get_path_or_undefined. cbn [get_path].
    destruct t; try discriminate; reflexivity.
Qed.

Lemma fold_left_snoc {A B : Type} (f : A -> B -> A) (l : list B) (x : B) (a : A) :
  fold_left f (l ++ [x]) a = f (fold_left f l a) x.
Proof. now rewrite fold_left_app. Qed.

(** Safe navigation: for keys other than [_], the chain
    [opt(t).n1...nk._] never throws; it yields what the plain chain
    [t.n1...nk] yields when that chain does not throw, and [undefined]
    when the plain chain throws on a [null] or [undefined] link. *)
Theorem opt_path_unwrap :
  forall (read : PropertyRead) (t : value) (names : list string),
    Forall (fun n => n <> "_") names ->
    opt_path read t (names ++ ["_"])
    = Normal (AtValue (match get_path read t names with
                       | Normal v => v
                       | Throw _ => VUndefined
                       end)).
Proof.
  intros read t names H. unfold opt_path. rewrite fold_left_snoc.
  fold (opt_path read t names). rewrite opt_path_proxy by assumption. reflexivity.
Qed.

Lemma opt_path_unwrap_witness :
  opt_path get_prop (obj [("user", obj [("name", VStr "ann")])])
           (["user"; "address"; "city"] ++ ["_"])
  = Normal (AtValue (match get_path get_prop (obj [("user", obj [("name", VStr "ann")])])
                                    ["user"; "address"; "city"] with
                     | Normal v => v
                     | Throw _ => VUndefined
                     end)).
Proof.
  apply (opt_path_unwrap get_prop (obj [("user", obj [("name", VStr "ann")])])
                         ["user"; "address"; "city"]).
  repeat constructor; discriminate.
Defined.

(** ** [pack], column by column *)

Lemma length_le_longest (arrs : list (list value)) (a : list value) :
  In a arrs ->
  (List.length a <= fold_right Nat.max O (map (@List.length value) arrs))%nat.
Proof.
  induction arrs as [|b arrs IH]; cbn; [contradiction |].
  intros [-> | H]; [lia | specialize (IH H); lia].
Qed.

Lemma nth_map_at {A B : Type} (f : A -> B) (l : list A) (j : nat) (a : A) (d : B) :
  nth_error l j = Some a -> nth j (map f l) d = f a.
Proof.
  revert j; induction l as [|x l IH]; intros [|j] H; cbn in *; try discriminate.
  - now injection H as ->.
  - now apply IH.
Qed.

Lemma map_nth_seq_from (a : list value) (k : nat) (pre : list value) :
  List.length pre = k ->
  map (fun i => if Nat.ltb i (List.length (pre ++ a))
                then nth i (pre ++ a) VUndefined else VUndefined)
      (seq k (List.length a))
  = a.
Proof.
  revert k pre; induction a as [|x a IH]; intros k pre Hk; [reflexivity |].
  cbn [List.length seq map]. f_equal.
  - destruct (Nat.ltb_spec k (List.length (pre ++ x :: a))) as [_ | Hge].
    + rewrite app_nth2 by lia. now replace (k - List.length pre)%nat with O by lia.
    + rewrite length_app in Hge. cbn in Hge. lia.
  - specialize (IH (S k) (pre ++ [x])).
    rewrite <- app_assoc in IH. cbn [app] in IH. apply IH.
    rewrite length_app. cbn. lia.
Qed.

Lemma map_past_end (a : list value) (k m : nat) :
  (List.length a <= k)%nat ->
  map (fun i => if Nat.ltb i (List.length a) then nth i a VUndefined else VUndefined)
      (seq k m)
  = repeat VUndefined m.
Proof.
  revert k; induction m as [|m IH]; intros k Hk; [reflexivity |].
  cbn [seq map repeat]. f_equal.
  - destruct (Nat.ltb_spec k (List.length a)); [lia | reflexivity].
  - apply IH. lia.
Qed.

(** Reading position [j] of every tuple of [pack] gives back input [j],
    followed by [undefined] up to the length of the longest input; and
    every tuple has one position per input. *)
Theorem pack_columns :
  forall (arrs : list (list value)) (j : nat) (a : list value),
    nth_error arrs j = Some a ->
    map (fun tuple => nth j tuple VUndefined) (pack arrs)
    = a ++ repeat VUndefined
             (fold_right Nat.max O (map (@List.length value) arrs) - List.length a)
    /\ Forall (fun tuple => List.length tuple = List.length arrs) (pack arrs).
Proof.
  intros arrs j a Hj. unfold pack. rewrite lodash_max_longest.
  set (n := fold_right Nat.max O (map (@List.length value) arrs)).
  assert (List.length a <= n)%nat as Hlen
      by (apply length_le_longest; eapply nth_error_In; eassumption).
  split.
  - rewrite map_map.
    rewrite (map_ext _ (fun i => if Nat.ltb i (List.length a)
                                 then nth i a VUndefined else VUndefined))
      by (intro i;
          exact (nth_map_at (fun arr0 => if Nat.ltb i (List.length arr0)
                                         then nth i arr0 VUndefined else VUndefined)
                            arrs j a VUndefined Hj)).
    replace n with (List.length a + (n - List.length a))%nat at 1 by lia.
    rewrite seq_app, map_app. cbn [Nat.add]. f_equal.
    + exact (map_nth_seq_from a O [] eq_refl).
    + now apply map_past_end.
  - apply Forall_forall. intros tuple Hin.
    apply in_map_iff in Hin as (i & <- & _). apply length_map.
Qed.

Lemma pack_columns_witness :
  map (fun tuple => nth 1 tuple VUndefined)
      (pack [[VNum (Fin 1); VNum (Fin 2); VNum (Fin 3)]; [VStr "a"]])
  = [VStr "a"]
      ++ repeat VUndefined
           (fold_right Nat.max O
              (map (@List.length value)
                   [[VNum (Fin 1); VNum (Fin 2); VNum (Fin 3)]; [VStr "a"]])
            - List.length [VStr "a"])
  /\ Forall (fun tuple =>
               List.length tuple
               = List.length [[VNum (Fin 1); VNum (Fin 2); VNum (Fin 3)]; [VStr "a"]])
            (pack [[VNum (Fin 1); VNum (Fin 2); VNum (Fin 3)]; [VStr "a"]]).
Proof.
  apply (pack_columns [[VNum (Fin 1); VNum (Fin 2); VNum (Fin 3)]; [VStr "a"]] 1
                      [VStr "a"]).
  reflexivity.
Defined.

(** ** What the route wrappers log *)

Lemma invoke_console (callback : Callback) (err data : value) (s : RouteState) :
  console (snd (invoke callback err data s)) = console s.
Proof. unfold invoke. destruct (callback err data (resp s)); reflexivity. Qed.

Lemma call_handler_console (reqHandler : Handler) (req : value) (s : RouteState) :
  console (snd (call_handler reqHandler req s)) = console s
  /\ resp (snd (call_handler reqHandler req s)) = snd (reqHandler req (resp s)).
Proof.
  unfold call_handler. destruct (reqHandler req (resp s)); split; reflexivity.
Qed.

(** [routeAsync] writes to the console exactly the error that reaches
    its [catch] reaction when that error is an [Error] instance, and
    nothing else; [routeNextableAsync] never writes to the console. *)
Theorem route_wrappers_logging :
  forall (reqHandler : Handler) (callbackProvider : option (value -> Callback))
         (req : value) (s : RouteState),
    console (snd (routeAsync reqHandler callbackProvider req s))
    = console s
      ++ match caught reqHandler (terminal_callback callbackProvider req) req s with
         | Some err => if instanceof_Error err then [err] else []
         | None => []
         end
    /\ console (snd (routeNextableAsync reqHandler callbackProvider req s)) = console s.
Proof.
  intros. unfold routeAsync, routeNextableAsync, caught.
  set (callback := terminal_callback callbackProvider req).
  unfold call_handler. destruct (reqHandler req (resp s)) as [p r].
  set (s1 := {| resp := r; calls := calls s; console := console s |}).
  assert (forall e s0,
             console (snd (promise_catch (Rejected e)
                             (fun err =>
                                _ <- (if instanceof_Error err then console_log err
                                      else ret tt);;
                                invoke callback err VUndefined) s0))
             = console s0 ++ (if instanceof_Error e then [e] else [])) as Hcatch.
  { intros e s0. unfold promise_catch, promise_then, bind.
    destruct (instanceof_Error e).
    - unfold console_log.
      match goal with
      | |- context [invoke callback e VUndefined ?s2] =>
          pose proof (invoke_console callback e VUndefined s2) as H;
          destruct (invoke callback e VUndefined s2) as [[|] s3]; exact H
      end.
    - unfold ret.
      pose proof (invoke_console callback e VUndefined s0) as H.
      destruct (invoke callback e VUndefined s0) as [[|] s3];
        cbn [snd] in *; rewrite H; now rewrite app_nil_r. }
  destruct p as [data | err |]; cbn [promise_then].
  - split.
    + unfold invoke at 1. cbn [resp s1].
      destruct (callback VNull data r) as [[u|e] r'].
      * cbn. now rewrite app_nil_r.
      * rewrite Hcatch. reflexivity.
    + destruct (is_nullish data); cbn [negb].
      * reflexivity.
      * pose proof (invoke_console callback VNull data s1) as H.
        destruct (invoke callback VNull data s1) as [[|] s2]; exact H.
  - split.
    + rewrite Hcatch. reflexivity.
    + pose proof (invoke_console callback err VUndefined s1) as H.
      destruct (invoke callback err VUndefined s1) as [[|] s2]; exact H.
  - split; cbn; [now rewrite app_nil_r | reflexivity].
Qed.

(** ** [safe] *)

(** [safe(f, callback)] returns when [f] returns, adding no call and no
    log; when [f] throws, the error is logged and the callback is called
    once more, with the error only, and [safe] throws just what that call
    throws.  So with a callback that never throws [safe] never throws;
    and an [f] that calls back and then throws has the callback called
    twice. *)
Theorem safe_catches :
  forall (f : (value -> value -> M RouteState unit) -> M RouteState unit)
         (callback : Callback) (s : RouteState),
    match f (invoke callback) s with
    | (Normal _, s') => safe f callback s = (Normal tt, s')
    | (Throw ex, s') =>
        safe f callback s
        = (fst (callback ex VUndefined (resp s')),
           {| resp := snd (callback ex VUndefined (resp s'));
              calls := calls s' ++ [(ex, VUndefined)];
              console := console s' ++ [ex] |})
    end
    /\ ((forall err data r, exists r', callback err data r = (Normal tt, r')) ->
        (exists s', safe f callback s = (Normal tt, s'))
        /\ forall err data ex : value,
            calls (snd (safe (fun cb => _ <- cb err data;; lift (Throw ex)) callback s))
            = calls s ++ [(err, data); (ex, VUndefined)]).
Proof.
  intros f callback s. split.
  - unfold safe. destruct (f (invoke callback) s) as [[u|ex] s']; [reflexivity |].
    unfold bind, console_log, invoke. cbn [resp calls console].
    destruct (callback ex VUndefined (resp s')); reflexivity.
  - intros Hcb. split.
    + unfold safe.
      destruct (f (invoke callback) s) as [[u|ex] s']; [eauto |].
      unfold bind, console_log, invoke. cbn [resp calls console].
      destruct (Hcb ex VUndefined (resp s')) as [r' ->]. eauto.
    + intros err data ex. unfold safe, bind, lift, console_log.
      unfold invoke at 1. destruct (Hcb err data (resp s)) as [r1 ->].
      unfold invoke. cbn [resp calls console].
      destruct (Hcb ex VUndefined r1) as [r2 ->]. cbn.
      now rewrite <- app_assoc.
Qed.

(** ** UUID strings that are not well formed *)

(** On a string with no hyphen, or with one hyphen only, there is no
    third group: [getTimeIntFromUUID] and [getDateFromUUID] throw a
    [TypeError] and return no number. *)
Theorem getTimeIntFromUUID_too_few_groups :
  forall a b : string,
    has_char "-" a = false ->
    has_char "-" b = false ->
    (exists e, getTimeIntFromUUID a = Throw e /\ getDateFromUUID a = Throw e)
    /\ (exists e, getTimeIntFromUUID (a ++ "-" ++ b) = Throw e
                  /\ getDateFromUUID (a ++ "-" ++ b) = Throw e).
Proof.
  intros a b Ha Hb.
  assert (split a "-" = [a]) as E1
      by (unfold split; now rewrite split_from_char_free).
  assert (split (a ++ "-" ++ b) "-" = [a; b]) as E2.
  { unfold split. change ("-" ++ b)%string with (String "-"%char b).
    rewrite split_from_char_first by assumption.
    now rewrite split_from_char_free. }
  unfold getDateFromUUID, getTimeIntFromUUID. rewrite E1, E2. cbn [nth_error].
  split; eexists; split; reflexivity.
Qed.

Lemma getTimeIntFromUUID_too_few_groups_witness :
  (exists e, getTimeIntFromUUID "a1b2c3d4" = Throw e
             /\ getDateFromUUID "a1b2c3d4" = Throw e)
  /\ (exists e, getTimeIntFromUUID ("a1b2c3d4" ++ "-" ++ "e5f6") = Throw e
                /\ getDateFromUUID ("a1b2c3d4" ++ "-" ++ "e5f6") = Throw e).
Proof.
  apply (getTimeIntFromUUID_too_few_groups "a1b2c3d4" "e5f6"); reflexivity.
Defined.

(** ** [pairFirst] and [pairSecond] on other strings *)

(** [pairFirst] returns what stands before the first separator, and the
    whole string when there is none; [pairSecond] returns [undefined]
    when there is no separator.  So a first component that holds the
    separator does not come back from the rendered pair: only its part
    before the separator does. *)
Theorem pairFirst_first_segment :
  forall a rest s2 : string,
    has_char "|" a = false ->
    Pairs.pairFirst (a ++ "|" ++ rest) Pairs.default_sep Pairs.identity = VStr a
    /\ Pairs.pairFirst a Pairs.default_sep Pairs.identity = VStr a
    /\ Pairs.pairSecond a Pairs.default_sep Pairs.identity = VUndefined
    /\ Pairs.pairFirst
         (Pairs.str (Pairs.pair (VStr (a ++ "|" ++ rest)) (VStr s2)) Pairs.default_sep)
         Pairs.default_sep Pairs.identity = VStr a.
Proof.
  intros a rest s2 Ha.
  unfold Pairs.pairFirst, Pairs.pairSecond, Pairs.identity, Pairs.default_sep,
    Pairs.str, Pairs.pair, Pairs.join2, Pairs.render, split. cbn [Pairs._1 Pairs._2].
  rewrite append_assoc.
  change ("|" ++ rest)%string with (String "|"%char rest).
  change ((String "|"%char rest) ++ "|" ++ s2)%string
    with (String "|"%char (rest ++ "|" ++ s2)).
  rewrite !(split_from_char_first "|"%char a) by assumption.
  rewrite (split_from_char_free "|"%char a) by assumption.
  repeat split; reflexivity.
Qed.

Lemma pairFirst_first_segment_witness :
  Pairs.pairFirst ("a" ++ "|" ++ "b|c") Pairs.default_sep Pairs.identity = VStr "a"
  /\ Pairs.pairFirst "a" Pairs.default_sep Pairs.identity = VStr "a"
  /\ Pairs.pairSecond "a" Pairs.default_sep Pairs.identity = VUndefined
  /\ Pairs.pairFirst
       (Pairs.str (Pairs.pair (VStr ("a" ++ "|" ++ "b|c")) (VStr "d")) Pairs.default_sep)
       Pairs.default_sep Pairs.identity = VStr "a".
Proof. apply (pairFirst_first_segment "a" "b|c" "d"). reflexivity. Defined.

(** ** Printing and parsing integers *)

Lemma parse_digits_uint (d : Decimal.uint) (acc : Z) :
  parse_digits 10 (Some acc) (NilEmpty.string_of_uint d) = Some (uint_val d acc).
Proof.
  revert acc; induction d; intro acc; cbn [NilEmpty.string_of_uint uint_val];
    [reflexivity | ..]; cbn [parse_digits]; exact (IHd _).
Qed.

Lemma uint_val_pos (d : Decimal.uint) (p : positive) :
  uint_val d (Z.pos p) = Z.pos (Pos.of_uint_acc d p).
Proof.
  revert p; induction d; intro p; cbn [uint_val Pos.of_uint_acc];
    [reflexivity | ..];
    match goal with
    | |- uint_val _ ?a = Z.pos (Pos.of_uint_acc _ ?q) =>
        replace a with (Z.pos q) by lia; apply IHd
    end.
Qed.

Lemma uint_val_of_uint (d : Decimal.uint) : uint_val d 0 = Z.of_uint d.
Proof.
  unfold Z.of_uint. induction d; cbn [uint_val Pos.of_uint];
    [reflexivity | exact IHd | ..];
    cbn [Z.mul Z.add]; rewrite uint_val_pos; reflexivity.
Qed.

Lemma string_of_uint_no_prefix_x (d : Decimal.uint) :
  prefix "x" (NilEmpty.string_of_uint d) = false
  /\ prefix "X" (NilEmpty.string_of_uint d) = false.
Proof. destruct d; split; reflexivity. Qed.

(** [parseInt] reads a decimal numeral, signed or not, as the double
    nearest to the number it writes. *)
Lemma parseInt_numeral (d : Decimal.uint) :
  parseInt (NilZero.string_of_uint d) 0 = to_double (Z.of_uint d)
  /\ parseInt (String "-" (NilZero.string_of_uint d)) 0 = to_double (- Z.of_uint d).
Proof.
  rewrite <- uint_val_of_uint.
  destruct d as [|l|l|l|l|l|l|l|l|l|l]; [split; reflexivity | ..];
    destruct (string_of_uint_no_prefix_x l) as [Hx HX];
    unfold parseInt, NilZero.string_of_uint; cbn [NilEmpty.string_of_uint];
    cbn -[to_double Z.mul parse_digits NilEmpty.string_of_uint uint_val];
    rewrite ?Hx, ?HX; cbn [orb parse_digits];
    cbn -[to_double Z.mul parse_digits NilEmpty.string_of_uint uint_val];
    rewrite !parse_digits_uint; cbn [uint_val];
    split; f_equal;
    match goal with
    | |- context [uint_val l (0 * 10 + ?k)] => change (0 * 10 + k) with k
    end; lia.
Qed.

(** Below 2^53 a number prints as its decimal notation. *)
Lemma number_to_string_small (z : Z) :
  Z.abs z < 2 ^ 53 -> number_to_string (Fin z) = decimal z.
Proof.
  intro H. unfold number_to_string.
  destruct (Z.ltb_spec (Z.abs z) (2 ^ 53)); [reflexivity | lia].
Qed.

(** Reading back the decimal notation of an integer gives the integer,
    as a double. *)
Lemma parseInt_decimal (z : Z) : parseInt (decimal z) 0 = to_double z.
Proof.
  unfold decimal, NilZero.string_of_int.
  rewrite <- (DecimalZ.of_to z) at 2.
  destruct (Z.to_int z) as [d|d]; cbn [Z.of_int]; apply parseInt_numeral.
Qed.

Lemma trimStart_idempotent (s : string) : trimStart (trimStart s) = trimStart s.
Proof.
  induction s as [|c s IH]; [reflexivity |]. cbn [trimStart].
  destruct (is_whitespace c) eqn:E; [exact IH |]. cbn [trimStart]. now rewrite E.
Qed.

(** [lodash.parseInt] without a radix is the native [parseInt]. *)
Lemma lodash_parseInt_native (s : string) : lodash_parseInt s = parseInt s 0.
Proof.
  unfold lodash_parseInt, parseInt. now rewrite trimStart_idempotent.
Qed.

(** [parseIntNull] reads back every printed integer other than zero
    that a double holds exactly (below 2^53 in magnitude): the result is
    that integer, not null. *)
Theorem parseIntNull_reads_printed_integer :
  forall z : Z,
    z <> 0 ->
    Z.abs z < 2 ^ 53 ->
    parseIntNull (number_to_string (Fin z)) = VNum (Fin z).
Proof.
  intros z Hz Hb. unfold parseIntNull.
  rewrite number_to_string_small by assumption.
  rewrite lodash_parseInt_native, parseInt_decimal, to_double_exact by assumption.
  cbn. destruct (Z.eqb_spec z 0); [contradiction | reflexivity].
Qed.

Lemma parseIntNull_reads_printed_integer_witness :
  parseIntNull (number_to_string (Fin (-1513823309565))) = VNum (Fin (-1513823309565)).
Proof.
  apply (parseIntNull_reads_printed_integer (-1513823309565)).
  - discriminate.
  - reflexivity.
Defined.

(** ** [numKeys] *)

Lemma parseInt_no_digit (s : string) :
  starts_with_digit s = false -> parseInt s 0 = NaN.
Proof.
  unfold starts_with_digit, parseInt. cbn [Z.eqb negb andb orb].
  set (S := match trimStart s with
            | String "-"%char r | String "+"%char r => r
            | _ => trimStart s
            end).
  intro H. destruct S as [|c rest]; [reflexivity |].
  destruct (digit_value c) as [d|] eqn:Ed.
  - assert (prefix "0x" (String c rest) = false /\ prefix "0X" (String c rest) = false)
      as [-> ->].
    { cbn [prefix]. destruct (ascii_dec "0"%char c) as [<- | N];
        [cbn in Ed; injection Ed as <-; discriminate | split; reflexivity]. }
    cbn [orb andb parse_digits]. rewrite Ed.
    now destruct (d <? 10).
  - assert (prefix "0x" (String c rest) = false /\ prefix "0X" (String c rest) = false)
      as [-> ->].
    { cbn [prefix]. destruct (ascii_dec "0"%char c) as [<- | N];
        [discriminate | split; reflexivity]. }
    cbn [orb andb parse_digits]. now rewrite Ed.
Qed.

(** [numKeys] turns keys that print integers back into those integers:
    the indices [0 .. n-1] for an array of [n] elements (fewer than
    2^32, as every array has), and the integers themselves, as doubles,
    for an object keyed by decimal numerals; every key that, after
    leading white space and a sign, does not start with a digit gives
    NaN; and [null] and [undefined] have no keys. *)
Theorem numKeys_reads_integer_keys :
  (forall elems : list value,
      Z.of_nat (List.length elems) < 2 ^ 32 ->
      numKeys (arr elems) = map (fun i => Fin (Z.of_nat i)) (seq 0 (List.length elems)))
  /\ (forall (cls : objclass) (hidden : properties) (entries : list (Z * value)),
         numKeys (VObj cls hidden (map (fun e => (decimal (fst e), snd e)) entries))
         = map (fun e => to_double (fst e)) entries)
  /\ (forall (cls : objclass) (hidden props : properties),
         forallb (fun kv => negb (starts_with_digit (fst kv))) props = true ->
         numKeys (VObj cls hidden props) = map (fun _ => NaN) props)
  /\ numKeys VNull = [] /\ numKeys VUndefined = [].
Proof.
  split; [| split; [| split; [| split; reflexivity]]].
  - intros elems Hn. unfold numKeys, arr, lodash_keys, index_keys.
    rewrite app_nil_r, map_map. apply map_ext_in. intros i Hi.
    apply in_seq in Hi.
    assert (Z.abs (Z.of_nat i) < 2 ^ 53) as Hb by lia.
    rewrite number_to_string_small, parseInt_decimal by assumption.
    now apply to_double_exact.
  - intros cls hidden entries. unfold numKeys, lodash_keys.
    rewrite !map_map. apply map_ext. intros [z v]. cbn [fst snd].
    apply parseInt_decimal.
  - intros cls hidden props H. unfold numKeys, lodash_keys.
    rewrite map_map. apply map_ext_in. intros [k v] Hin. cbn [fst].
    apply parseInt_no_digit.
    rewrite forallb_forall in H. specialize (H _ Hin). cbn [fst] in H.
    now destruct (starts_with_digit k).
Qed.

Lemma numKeys_reads_integer_keys_witness :
  numKeys (arr [VNull; VStr "a"; VNull]) = [Fin 0; Fin 1; Fin 2]
  /\ numKeys (obj [("id", VNull); ("  -x", VNull); ("", VNull)]) = [NaN; NaN; NaN].
Proof.
  split.
  - apply (proj1 numKeys_reads_integer_keys [VNull; VStr "a"; VNull]). reflexivity.
  - apply (proj1 (proj2 (proj2 numKeys_reads_integer_keys)) ClsObject []
                 [("id", VNull); ("  -x", VNull); ("", VNull)]).
    reflexivity.
Defined.

(** ** [arr] *)

Lemma arr_loop_run (n : nat) :
  forall (a b : Z) (acc : list number) (fuel : nat),
    Z.abs a < 2 ^ 53 -> Z.abs b < 2 ^ 53 ->
    a + Z.of_nat n <= Z.max a b ->
    Z.of_nat (List.length acc) + Z.of_nat n <= max_array_length ->
    arr_loop (n + fuel) (Fin a) (Fin b) acc
    = arr_loop fuel (Fin (a + Z.of_nat n)) (Fin b)
               (acc ++ map (fun k => Fin (a + Z.of_nat k)) (seq 0 n)).
Proof.
  induction n as [|n IH]; intros a b acc fuel Ha Hb Hn Hl.
  - cbn [Nat.add seq map]. rewrite app_nil_r. do 2 f_equal. lia.
  - cbn [Nat.add arr_loop num_lt].
    destruct (Z.ltb_spec a b); [| lia].
    destruct (Z.ltb_spec (Z.of_nat (List.length acc)) max_array_length); [| lia].
    cbn [num_succ]. rewrite to_double_exact by lia.
    rewrite (IH (a + 1) b) by (rewrite ?length_app; cbn [List.length]; lia).
    replace (a + 1 + Z.of_nat n) with (a + Z.of_nat (S n)) by lia.
    f_equal. cbn [seq map]. rewrite <- app_assoc. cbn [app]. do 2 f_equal.
    + f_equal. lia.
    + rewrite <- seq_shift, map_map. apply map_ext. intro k. f_equal. lia.
Qed.

(** [arr(from, to)] for integers below 2^53 in magnitude: the loop ends.
    For fewer than 2^32 numbers it returns [from, from + 1, ..., to - 1],
    that is [to - from] numbers, and no number when [to <= from]; from
    2^32 numbers on, the push that would make the length 2^32 throws a
    [RangeError] and nothing is returned. *)
Theorem arr_range_integers :
  forall (from to : Z) (fuel : nat),
    Z.abs from < 2 ^ 53 ->
    Z.abs to < 2 ^ 53 ->
    Z.max 0 (to - from) < Z.of_nat fuel ->
    arr_range fuel (Fin from) (Fin to)
    = if to - from <? 2 ^ 32
      then Some (Returned (map (fun k => Fin (from + Z.of_nat k))
                               (seq 0 (Z.to_nat (to - from)))))
      else Some Invalid_array_length.
Proof.
  intros from to fuel Hf Ht Hfuel. unfold arr_range.
  assert (max_array_length = 2 ^ 32 - 1) as Hmax by reflexivity.
  destruct (Z.ltb_spec (to - from) (2 ^ 32)) as [Hsmall | Hlarge].
  - remember (Z.to_nat (to - from)) as n eqn:En.
    assert (Z.of_nat n = Z.max 0 (to - from)) as Hn by lia.
    replace fuel with (n + S (fuel - n - 1))%nat by lia.
    rewrite arr_loop_run by (cbn [List.length]; lia).
    cbn [arr_loop num_lt app].
    destruct (Z.ltb_spec (from + Z.of_nat n) to); [lia | reflexivity].
  - remember (Z.to_nat max_array_length) as n eqn:En.
    assert (Z.of_nat n = max_array_length) as Hn by (rewrite Hmax in *; lia).
    replace fuel with (n + S (fuel - n - 1))%nat by lia.
    rewrite arr_loop_run by (cbn [List.length]; lia).
    cbn [arr_loop num_lt app].
    destruct (Z.ltb_spec (from + Z.of_nat n) to); [| lia].
    rewrite length_map, length_seq.
    destruct (Z.ltb_spec (Z.of_nat n) max_array_length); [lia | reflexivity].
Qed.

Lemma arr_range_integers_witness :
  arr_range 10 (Fin (-2)) (Fin 3)
  = if 3 - -2 <? 2 ^ 32
    then Some (Returned (map (fun k => Fin (-2 + Z.of_nat k)) (seq 0 (Z.to_nat (3 - -2)))))
    else Some Invalid_array_length.
Proof.
  apply (arr_range_integers (-2) 3 10).
  - reflexivity.
  - reflexivity.
  - reflexivity.
Defined.

Lemma arr_loop_stuck (i to : Z) :
  i < to ->
  to_double (i + 1) = Fin i ->
  forall (fuel : nat) (acc : list number),
    Z.of_nat (List.length acc) <= max_array_length ->
    arr_loop fuel (Fin i) (Fin to) acc
    = if Z.of_nat fuel <=? max_array_length - Z.of_nat (List.length acc)
      then None else Some Invalid_array_length.
Proof.
  intros Hlt Hstuck. induction fuel as [|fuel IH]; intros acc Hacc.
  - cbn [arr_loop].
    destruct (Z.leb_spec (Z.of_nat 0) (max_array_length - Z.of_nat (List.length acc)));
      [reflexivity | lia].
  - cbn [arr_loop num_lt num_succ].
    destruct (Z.ltb_spec i to); [| lia]. rewrite Hstuck.
    destruct (Z.ltb_spec (Z.of_nat (List.length acc)) max_array_length).
    + rewrite IH by (rewrite length_app; cbn [List.length]; lia).
      rewrite length_app. cbn [List.length].
      destruct (Z.leb_spec (Z.of_nat fuel)
                  (max_array_length - Z.of_nat (List.length acc + 1)));
        destruct (Z.leb_spec (Z.of_nat (S fuel))
                    (max_array_length - Z.of_nat (List.length acc)));
        try reflexivity; lia.
    + destruct (Z.leb_spec (Z.of_nat (S fuel))
                  (max_array_length - Z.of_nat (List.length acc)));
        [lia | reflexivity].
Qed.

(** Where [++i] no longer changes [i] the helper [arr] never returns:
    from a number [i] below [to] whose successor rounds back to [i], as
    2^53 does, every turn of the loop pushes [i] again, no turn before
    the 2^32-th gives a result, and the push of the 2^32-th throws a
    [RangeError]. *)
Theorem arr_range_stuck_throws :
  forall (i to : Z) (fuel : nat),
    i < to ->
    to_double (i + 1) = Fin i ->
    arr_range fuel (Fin i) (Fin to)
    = if Z.of_nat fuel <? 2 ^ 32 then None else Some Invalid_array_length.
Proof.
  intros i to fuel Hlt Hstuck. unfold arr_range.
  assert (max_array_length = 2 ^ 32 - 1) as Hmax by reflexivity.
  rewrite (arr_loop_stuck i to Hlt Hstuck) by (cbn [List.length]; lia).
  cbn [List.length].
  destruct (Z.leb_spec (Z.of_nat fuel) (max_array_length - Z.of_nat 0));
    destruct (Z.ltb_spec (Z.of_nat fuel) (2 ^ 32)); try reflexivity; lia.
Qed.

Lemma arr_range_stuck_throws_witness :
  arr_range 1000 (Fin (2 ^ 53)) (Fin (2 ^ 53 + 2))
  = if Z.of_nat 1000 <? 2 ^ 32 then None else Some Invalid_array_length.
Proof.
  apply (arr_range_stuck_throws (2 ^ 53) (2 ^ 53 + 2) 1000).
  - reflexivity.
  - reflexivity.
Defined.

(** ** Objects built key by key: [zipToObj], [arrToObj], [redishmgetParse] *)

Lemma assoc_app (k : string) (l1 l2 : properties) :
  assoc k (l1 ++ l2) = match assoc k l1 with Some v => Some v | None => assoc k l2 end.
Proof.
  induction l1 as [|[k' v] l1 IH]; cbn; [reflexivity |].
  destruct (String.eqb k k'); [reflexivity | exact IH].
Qed.

Lemma assoc_insert_index_same (i : nat) (k : string) (x : value) (l : properties) :
  has_key k l = false -> assoc k (insert_index i (k, x) l) = Some x.
Proof.
  unfold has_key. induction l as [|[k' v'] l IH]; cbn [insert_index assoc]; intro H.
  - now rewrite String.eqb_refl.
  - destruct (String.eqb k k') eqn:E; [discriminate |].
    destruct (array_index k') as [i'|]; [destruct (Nat.ltb i' i) |];
      cbn [assoc]; rewrite ?E, ?String.eqb_refl; auto.
Qed.

Lemma assoc_insert_index_other (i : nat) (k k' : string) (x : value) (l : properties) :
  k <> k' -> assoc k' (insert_index i (k, x) l) = assoc k' l.
Proof.
  intro N. assert (String.eqb k' k = false) as E by (apply String.eqb_neq; congruence).
  induction l as [|[k0 v0] l IH]; cbn [insert_index assoc].
  - now rewrite E.
  - destruct (array_index k0) as [i'|]; [destruct (Nat.ltb i' i) |];
      cbn [assoc]; rewrite ?E, ?IH; reflexivity.
Qed.

Lemma assoc_add_own_same (l : properties) (k : string) (x : value) :
  has_key k l = false -> assoc k (add_own l k x) = Some x.
Proof.
  intro H. unfold add_own. destruct (array_index k).
  - now apply assoc_insert_index_same.
  - now apply assoc_app_new.
Qed.

Lemma assoc_add_own_other (l : properties) (k k' : string) (x : value) :
  k <> k' -> assoc k' (add_own l k x) = assoc k' l.
Proof.
  intro N. unfold add_own. destruct (array_index k).
  - now apply assoc_insert_index_other.
  - now apply assoc_app_other.
Qed.

Lemma assoc_dict_assign_same (d : Dict) (k : string) (x : value) :
  k <> "__proto__" -> assoc k (dict_own (dict_assign d k x)) = Some x.
Proof.
  intro N. unfold dict_assign.
  destruct (has_key k (dict_own d)) eqn:E; cbn [dict_own].
  - now apply assoc_replace_same.
  - destruct (String.eqb_spec k "__proto__"); [contradiction |].
    cbn [andb dict_own]. now apply assoc_add_own_same.
Qed.

Lemma assoc_dict_assign_other (d : Dict) (k k' : string) (x : value) :
  k <> k' -> assoc k' (dict_own (dict_assign d k x)) = assoc k' (dict_own d).
Proof.
  intro N. unfold dict_assign.
  destruct (has_key k (dict_own d)); cbn [dict_own].
  - now apply assoc_replace_other.
  - destruct (String.eqb k "__proto__" && reaches_setter (dict_proto d)); cbn [dict_own].
    + reflexivity.
    + now apply assoc_add_own_other.
Qed.

(** Only the key [__proto__] touches the prototype. *)
Lemma dict_proto_assign_other (d : Dict) (k : string) (x : value) :
  k <> "__proto__" -> dict_proto (dict_assign d k x) = dict_proto d.
Proof.
  intro N. unfold dict_assign.
  destruct (has_key k (dict_own d)); [reflexivity |].
  destruct (String.eqb_spec k "__proto__"); [contradiction | reflexivity].
Qed.

(** The value a key other than [__proto__] holds after a run of
    assignments: that of the last assignment to the key. *)
Lemma assoc_assignments (pairs : list (string * value)) (d : Dict) (k : string) :
  k <> "__proto__" ->
  assoc k (dict_own (fold_left (fun d kv => dict_assign d (fst kv) (snd kv)) pairs d))
  = match assoc k (rev pairs) with
    | Some v => Some v
    | None => assoc k (dict_own d)
    end.
Proof.
  intro Nk. revert d; induction pairs as [|[k0 v0] pairs IH]; intro d; cbn [fold_left rev].
  - reflexivity.
  - rewrite IH, assoc_app. cbn [fst snd assoc].
    destruct (assoc k (rev pairs)); [reflexivity |].
    destruct (String.eqb_spec k k0) as [<- | N].
    + now apply assoc_dict_assign_same.
    + apply assoc_dict_assign_other. congruence.
Qed.

Lemma fold_left_map_pairs {T : Type} (key : T -> string) (val : T -> value)
    (l : list T) (d : Dict) :
  fold_left (fun ret t => dict_assign ret (key t) (val t)) l d
  = fold_left (fun d kv => dict_assign d (fst kv) (snd kv))
              (map (fun t => (key t, val t)) l) d.
Proof.
  revert d; induction l as [|t l IH]; intro d; [reflexivity | apply IH].
Qed.

Lemma assoc_map_pairs {T : Type} (key : T -> string) (val : T -> value)
    (l : list T) (k : string) :
  assoc k (map (fun t => (key t, val t)) l)
  = option_map val (find (fun t => String.eqb k (key t)) l).
Proof.
  induction l as [|t l IH]; cbn; [reflexivity |].
  destruct (String.eqb k (key t)); [reflexivity | exact IH].
Qed.

(** [arrToObj]: a key of the result other than [__proto__] holds the
    value of the last element that maps to it, and a key no element maps
    to is absent. *)
Theorem arrToObj_last_wins :
  forall (T : Type) (l : list T) (keyMap : T -> string) (valMap : T -> value)
         (k : string),
    k <> "__proto__" ->
    assoc k (dict_own (arrToObj l keyMap valMap))
    = option_map valMap (find (fun t => String.eqb k (keyMap t)) (rev l)).
Proof.
  intros T l keyMap valMap k Nk. unfold arrToObj.
  rewrite fold_left_map_pairs, assoc_assignments by assumption.
  rewrite <- map_rev, assoc_map_pairs.
  now destruct (find _ (rev l)).
Qed.

Lemma arrToObj_last_wins_witness :
  assoc "b" (dict_own (arrToObj [("a", 1); ("b", 2); ("b", 3)] fst
                                (fun t => VNum (Fin (snd t)))))
  = option_map (fun t => VNum (Fin (snd t)))
               (find (fun t => String.eqb "b" (fst t)) (rev [("a", 1); ("b", 2); ("b", 3)])).
Proof.
  apply (arrToObj_last_wins (string * Z) [("a", 1); ("b", 2); ("b", 3)] fst
                            (fun t => VNum (Fin (snd t))) "b").
  discriminate.
Defined.

Lemma find_key_itself (k : string) (keys : list string) :
  find (fun k' => String.eqb k k') keys
  = if existsb (String.eqb k) keys then Some k else None.
Proof.
  induction keys as [|k' keys IH]; cbn; [reflexivity |].
  destruct (String.eqb_spec k k') as [<- | N]; [reflexivity | exact IH].
Qed.

Lemma existsb_rev {A : Type} (f : A -> bool) (l : list A) :
  existsb f (rev l) = existsb f l.
Proof.
  induction l as [|x l IH]; cbn; [reflexivity |].
  rewrite existsb_app, IH. cbn. rewrite orb_false_r. apply orb_comm.
Qed.

(** [zipToObj]: every key of the list other than [__proto__] holds
    [fVal(key)], however often it occurs, and no other key is present. *)
Theorem zipToObj_lookup :
  forall (keys : list string) (fVal : string -> value) (k : string),
    k <> "__proto__" ->
    assoc k (dict_own (zipToObj keys fVal))
    = if existsb (String.eqb k) keys then Some (fVal k) else None.
Proof.
  intros keys fVal k Nk. unfold zipToObj.
  rewrite (fold_left_map_pairs (fun k => k) fVal), assoc_assignments by assumption.
  rewrite <- map_rev, assoc_map_pairs, find_key_itself, existsb_rev.
  now destruct (existsb (String.eqb k) keys).
Qed.

Lemma zipToObj_lookup_witness :
  assoc "b" (dict_own (zipToObj ["b"; "a"; "b"] VStr))
  = if existsb (String.eqb "b") ["b"; "a"; "b"] then Some (VStr "b") else None.
Proof. apply (zipToObj_lookup ["b"; "a"; "b"] VStr "b"). discriminate. Defined.

(** *** The key [__proto__] *)

Lemma set_prototype_twice (p : prototype) (x : value) :
  set_prototype (set_prototype p x) x = set_prototype p x.
Proof. now destruct x. Qed.

Lemma proto_key_kept (keys : list string) (fVal : string -> value) (d : Dict) :
  assoc "__proto__" (dict_own d) = Some (fVal "__proto__") ->
  assoc "__proto__"
        (dict_own (fold_left (fun obj k => dict_assign obj k (fVal k)) keys d))
  = Some (fVal "__proto__").
Proof.
  revert d; induction keys as [|k keys IH]; intros d H; [exact H |].
  cbn [fold_left]. apply IH.
  destruct (String.eqb_spec k "__proto__") as [-> | N].
  - unfold dict_assign, has_key. rewrite H. cbn [dict_own].
    apply assoc_replace_same. unfold has_key. now rewrite H.
  - now rewrite assoc_dict_assign_other.
Qed.

Lemma proto_key_without_setter (keys : list string) (fVal : string -> value) (d : Dict) :
  assoc "__proto__" (dict_own d) = None ->
  reaches_setter (dict_proto d) = false ->
  assoc "__proto__"
        (dict_own (fold_left (fun obj k => dict_assign obj k (fVal k)) keys d))
  = if existsb (String.eqb "__proto__") keys then Some (fVal "__proto__") else None.
Proof.
  revert d; induction keys as [|k keys IH]; intros d H R; [exact H |].
  cbn [fold_left existsb].
  destruct (String.eqb_spec "__proto__" k) as [<- | N]; cbn [orb].
  - apply proto_key_kept.
    unfold dict_assign, has_key. rewrite H, R. cbn [andb dict_own].
    apply assoc_add_own_same. unfold has_key. now rewrite H.
  - apply IH.
    + rewrite assoc_dict_assign_other by congruence. exact H.
    + rewrite dict_proto_assign_other by congruence. exact R.
Qed.

Lemma proto_key_with_setter (keys : list string) (fVal : string -> value) (d : Dict) :
  assoc "__proto__" (dict_own d) = None ->
  reaches_setter (dict_proto d) = true ->
  assoc "__proto__"
        (dict_own (fold_left (fun obj k => dict_assign obj k (fVal k)) keys d))
  = if reaches_setter (set_prototype (dict_proto d) (fVal "__proto__")) then None
    else if Nat.leb 2 (count_occ string_dec keys "__proto__")
         then Some (fVal "__proto__") else None.
Proof.
  revert d; induction keys as [|k keys IH]; intros d H R.
  - cbn. rewrite H. destruct (reaches_setter (set_prototype _ _)); reflexivity.
  - cbn [fold_left count_occ].
    destruct (string_dec k "__proto__") as [-> | N].
    + assert (dict_assign d "__proto__" (fVal "__proto__")
              = {| dict_proto := set_prototype (dict_proto d) (fVal "__proto__");
                   dict_own := dict_own d |}) as ->
          by (unfold dict_assign, has_key; now rewrite H, R).
      destruct (reaches_setter (set_prototype (dict_proto d) (fVal "__proto__"))) eqn:R'.
      * rewrite IH by assumption. cbn [dict_proto].
        now rewrite set_prototype_twice, R'.
      * rewrite proto_key_without_setter by assumption.
        destruct (existsb (String.eqb "__proto__") keys) eqn:Ex.
        -- apply existsb_exists in Ex as (k & Hin & Hk). apply String.eqb_eq in Hk as <-.
           apply (count_occ_In string_dec) in Hin.
           destruct (count_occ string_dec keys "__proto__"); [lia | reflexivity].
        -- assert (count_occ string_dec keys "__proto__" = 0%nat) as ->; [| reflexivity].
           apply count_occ_not_In. intro Hin.
           assert (existsb (String.eqb "__proto__") keys = true) as Ex'
               by (apply existsb_exists; exists "__proto__"; split;
                   [assumption | apply String.eqb_refl]).
           congruence.
    + rewrite IH.
      * now rewrite dict_proto_assign_other.
      * now rewrite assoc_dict_assign_other.
      * now rewrite dict_proto_assign_other.
Qed.

(** The key [__proto__] in [zipToObj] goes to the setter of
    [Object.prototype], which makes an object or [null] the prototype
    and ignores any other value: one occurrence never gives an own
    property.  A second occurrence does, once the first has cut the
    object off from the setter, that is when [fVal] gives [null] or an
    object that has an own property [__proto__] itself. *)
Theorem zipToObj_proto_key :
  forall (keys : list string) (fVal : string -> value),
    assoc "__proto__" (dict_own (zipToObj keys fVal))
    = if reaches_setter (set_prototype ProtoObject (fVal "__proto__")) then None
      else if Nat.leb 2 (count_occ string_dec keys "__proto__")
           then Some (fVal "__proto__") else None.
Proof.
  intros keys fVal. unfold zipToObj.
  now rewrite proto_key_with_setter.
Qed.

Lemma fold_left_conditional {T : Type} (c : T -> bool) (key : T -> string)
    (val : T -> value) (l : list T) (d : Dict) :
  fold_left (fun dict i => if c i then dict_assign dict (key i) (val i) else dict) l d
  = fold_left (fun d kv => dict_assign d (fst kv) (snd kv))
              (map (fun i => (key i, val i)) (filter c l)) d.
Proof.
  revert d; induction l as [|i l IH]; intro d; [reflexivity |].
  cbn [fold_left filter]. destruct (c i); [cbn [map fold_left fst snd] |]; apply IH.
Qed.

Lemma find_unique (P : nat -> bool) (i0 : nat) (l : list nat) :
  (forall j, In j l -> (P j = true <-> j = i0)) ->
  find P l = if existsb (Nat.eqb i0) l then Some i0 else None.
Proof.
  induction l as [|j l IH]; intro H; [reflexivity |]. cbn [find existsb].
  destruct (P j) eqn:E.
  - assert (j = i0) as -> by (apply H; [now left | assumption]).
    now rewrite Nat.eqb_refl.
  - destruct (Nat.eqb_spec i0 j) as [<- | N].
    + assert (P i0 = true) by (apply H; [now left | reflexivity]). congruence.
    + cbn [orb]. apply IH. intros j' Hj'. apply H. now right.
Qed.

Lemma existsb_filter_seq (c : nat -> bool) (i0 n : nat) :
  (i0 < n)%nat -> existsb (Nat.eqb i0) (filter c (seq 0 n)) = c i0.
Proof.
  intro Hi. destruct (c i0) eqn:E.
  - apply existsb_exists. exists i0. split; [| apply Nat.eqb_refl].
    apply filter_In. split; [apply in_seq; lia | assumption].
  - destruct (existsb (Nat.eqb i0) (filter c (seq 0 n))) eqn:Ex; [| reflexivity].
    apply existsb_exists in Ex as (x & Hin & Hx).
    apply Nat.eqb_eq in Hx as <-. apply filter_In in Hin as [_ Hc]. congruence.
Qed.

Lemma assoc_mapValues (d : properties) (iterator : option (value -> string -> value))
    (k : string) :
  assoc k (lodash_mapValues d iterator)
  = option_map (fun v => match iterator with Some f => f v k | None => v end)
               (assoc k d).
Proof.
  unfold lodash_mapValues.
  induction d as [|[k' v'] d IH]; cbn [map assoc fst snd]; [reflexivity |].
  destruct (String.eqb_spec k k') as [-> | N]; [reflexivity | exact IH].
Qed.

(** [redishmgetParse] on distinct keys: the key at position [i], when it
    is not [__proto__], holds the iterator's result on the value at
    position [i] of the data ([undefined] past the end of the data) if
    that value is truthy or [empty] is set, and is absent otherwise. *)
Theorem redishmgetParse_lookup :
  forall (keys : list string) (data : list value)
         (iterator : option (value -> string -> value)) (empty : bool) (i : nat),
    NoDup keys ->
    (i < List.length keys)%nat ->
    nth i keys "" <> "__proto__" ->
    assoc (nth i keys "") (redishmgetParse keys data iterator empty)
    = if ToBoolean (nth i data VUndefined) || empty
      then Some (match iterator with
                 | Some f => f (nth i data VUndefined) (nth i keys "")
                 | None => nth i data VUndefined
                 end)
      else None.
Proof.
  intros keys data iterator empty i Hnd Hi Hproto.
  unfold redishmgetParse.
  set (val := fun j => if Nat.ltb j (List.length data) then nth j data VUndefined
                       else VUndefined).
  assert (forall j, val j = nth j data VUndefined) as Hval.
  { intro j. unfold val. destruct (Nat.ltb_spec j (List.length data)); [reflexivity |].
    symmetry. now apply nth_overflow. }
  rewrite assoc_mapValues.
  rewrite (fold_left_conditional (fun j => ToBoolean (val j) || empty)
                                 (fun j => nth j keys "") val).
  rewrite assoc_assignments by assumption. cbn [empty_dict dict_own assoc].
  rewrite <- map_rev, assoc_map_pairs.
  rewrite (find_unique _ i).
  - rewrite existsb_rev, existsb_filter_seq by assumption.
    rewrite Hval. destruct (ToBoolean (nth i data VUndefined) || empty); cbn.
    + now rewrite Hval.
    + reflexivity.
  - intros j Hj. apply in_rev, filter_In in Hj as [Hj _]. apply in_seq in Hj.
    rewrite String.eqb_eq. split.
    + intro E. symmetry. apply (proj1 (NoDup_nth keys "") Hnd); [lia | lia | congruence].
    + now intros ->.
Qed.

Lemma redishmgetParse_lookup_witness :
  assoc (nth 1 ["u:1"; "u:2"; "u:3"] "")
        (redishmgetParse ["u:1"; "u:2"; "u:3"] [VStr "ann"; VNull] None false)
  = if ToBoolean (nth 1 [VStr "ann"; VNull] VUndefined) || false
    then Some (nth 1 [VStr "ann"; VNull] VUndefined)
    else None.
Proof.
  apply (redishmgetParse_lookup ["u:1"; "u:2"; "u:3"] [VStr "ann"; VNull] None false 1).
  - repeat constructor; cbn; intuition discriminate.
  - cbn. lia.
  - discriminate.
Defined.

(** ** A logic error through [createServiceCallback] *)

Lemma json_value_primitives (pars : list primitive) :
  forallb finite_primitive pars = true ->
  json_value (arr (map value_of_primitive pars)) = Some (arr (map value_of_primitive pars)).
Proof.
  induction pars as [|p pars IH]; intro H; [reflexivity |].
  cbn [forallb] in H. apply andb_true_iff in H as [Hp Hr].
  specialize (IH Hr). unfold arr in *. cbn [map]. cbn [json_value] in *.
  injection IH as IH. rewrite IH.
  destruct p as [s | [z| | |] | b]; try discriminate; reflexivity.
Qed.

Lemma json_value_logicError (title msg : string) (h c : Z) (pars : list primitive) :
  forallb finite_primitive pars = true ->
  json_value (logicError title msg (Fin h) (Fin c) pars)
  = Some (toJSON (logicError title msg (Fin h) (Fin c) pars)).
Proof.
  intro H. pose proof (json_value_primitives pars H) as Hp.
  unfold logicError, new_APILogicError, toJSON.
  unfold arr in *. cbn [json_value] in *. injection Hp as Hp. rewrite Hp.
  reflexivity.
Qed.

(** The error built by [logicError] with a finite status and code and
    with finite numbers among its parameters, passed alone to the
    callback of [createServiceCallback], is answered with that status
    and with the envelope [{err: e.toJSON()}]: nothing is backfilled and
    nothing is lost. *)
Theorem createServiceCallback_logicError :
  forall (title msg : string) (h c : Z) (pars : list primitive) (r : Response),
    forallb finite_primitive pars = true ->
    createServiceCallback (logicError title msg (Fin h) (Fin c) pars) VUndefined r
    = (Normal tt,
       {| statusCode := VNum (Fin h);
          sent := sent r
                  ++ [obj [("err", toJSON (logicError title msg (Fin h) (Fin c) pars))]] |}).
Proof.
  intros title msg h c pars r H.
  rewrite (createServiceCallback_run _ VUndefined
             (toJSON (logicError title msg (Fin h) (Fin c) pars)) (obj []) NaN r);
    try reflexivity.
  now apply json_value_logicError.
Qed.

Lemma createServiceCallback_logicError_witness :
  createServiceCallback
    (logicError "Not found" "no such user" (Fin 404) (Fin 10) [PStr "u"; PNum (Fin 7)])
    VUndefined new_response
  = (Normal tt,
     {| statusCode := VNum (Fin 404);
        sent := sent new_response
                ++ [obj [("err", toJSON (logicError "Not found" "no such user" (Fin 404)
                                                     (Fin 10) [PStr "u"; PNum (Fin 7)]))]] |}).
Proof.
  apply (createServiceCallback_logicError
           "Not found" "no such user" 404 10 [PStr "u"; PNum (Fin 7)] new_response).
  reflexivity.
Defined.

(** ** A number through [pair], [str], [pairFirst] and [parseIntNull] *)

Lemma string_of_uint_no_bar (d : Decimal.uint) :
  has_char "|" (NilEmpty.string_of_uint d) = false.
Proof. induction d; cbn [NilEmpty.string_of_uint has_char]; try reflexivity; exact IHd. Qed.

Lemma decimal_no_bar (z : Z) : has_char "|" (decimal z) = false.
Proof.
  unfold decimal, NilZero.string_of_int, NilZero.string_of_uint.
  destruct (Z.to_int z) as [d|d]; destruct d; cbn [has_char];
    try reflexivity;
    match goal with
    | |- context [NilEmpty.string_of_uint ?u] =>
        cbn [NilEmpty.string_of_uint has_char]; cbn [Ascii.eqb Bool.eqb orb];
        apply string_of_uint_no_bar
    end.
Qed.

(** A pair whose first component is an integer other than zero, below
    2^53 in magnitude, gives that integer back: [pairFirst] cuts its
    printed form out of the string [str] renders, whatever the second
    component is, and [parseIntNull] reads it. *)
Theorem pair_number_roundtrip :
  forall (z : Z) (x : value),
    z <> 0 ->
    Z.abs z < 2 ^ 53 ->
    exists s : string,
      Pairs.pairFirst (Pairs.str (Pairs.pair (VNum (Fin z)) x) Pairs.default_sep)
                      Pairs.default_sep Pairs.identity
      = VStr s
      /\ parseIntNull s = VNum (Fin z).
Proof.
  intros z x Hz Hb. exists (decimal z). split.
  - unfold Pairs.pairFirst, Pairs.str, Pairs.pair, Pairs.default_sep, Pairs.join2,
      Pairs.identity, split.
    cbn [Pairs._1 Pairs._2 Pairs.render].
    rewrite number_to_string_small by assumption.
    match goal with
    | |- context [("|" ++ ?t)%string] =>
        change ("|" ++ t)%string with (String "|"%char t)
    end.
    rewrite split_from_char_first by apply decimal_no_bar.
    reflexivity.
  - unfold parseIntNull.
    rewrite lodash_parseInt_native, parseInt_decimal, to_double_exact
      by assumption.
    cbn. destruct (Z.eqb_spec z 0); [contradiction | reflexivity].
Qed.

Lemma pair_number_roundtrip_witness :
  exists s : string,
    Pairs.pairFirst (Pairs.str (Pairs.pair (VNum (Fin 42)) (obj [("a", VNull)]))
                               Pairs.default_sep)
                    Pairs.default_sep Pairs.identity
    = VStr s
    /\ parseIntNull s = VNum (Fin 42).
Proof.
  apply (pair_number_roundtrip 42 (obj [("a", VNull)])).
  - discriminate.
  - reflexivity.
Defined.
